(** * Token-usage alert function: reconciliation of usage records

    Shallow embedding of [src/functions/httpTrigger.ts] and the properties
    its specification states about it.

    The TypeScript code is asynchronous and talks to outside services (the
    table store, the mail client, the credential and the metrics endpoint).
    Each [await] on one of them, each reading of the time and each console
    write is a node of a program tree [prog]; rejected promises and [throw]
    are the left injection of [exn + A].

    The services answer through an environment [env], the table is a
    finite map, and two semantics run the trees: [exec] runs one program
    alone to its end, [promise_all] runs several of them together in any
    order ([await Promise.all]).  Properties of a reconciliation that
    nothing overlaps are stated on [exec]; properties that hold whatever
    else runs are stated on [promise_all] and on [run_of].

    Numbers: [sumToken] and [SumToken] are JavaScript numbers that hold
    token counts; they are integers here ([Z]).  [ActionDone] is only ever
    written as a boolean by this program and is a [bool]. *)

From stdpp Require Import gmap strings list fin_maps pretty.

Local Open Scope Z_scope.
Local Open Scope string_scope.
Local Open Scope list_scope.

(** ** Data *)

(** The entity this program keeps in the table (lines 69-75). *)
Record TableEntity := mkEntity {
  partitionKey : string;
  rowKey : string;
  SumToken : Z;
  ActionDone : bool;
  LastUpdated : string
}.

#[global] Instance TableEntity_eq_dec : EqDecision TableEntity.
Proof. solve_decision. Defined.

(** Assignments to a field of an entity object ([entity.ActionDone = ...]). *)
Definition set_SumToken (v : Z) (e : TableEntity) : TableEntity :=
  mkEntity (partitionKey e) (rowKey e) v (ActionDone e) (LastUpdated e).
Definition set_ActionDone (v : bool) (e : TableEntity) : TableEntity :=
  mkEntity (partitionKey e) (rowKey e) (SumToken e) v (LastUpdated e).
Definition set_LastUpdated (v : string) (e : TableEntity) : TableEntity :=
  mkEntity (partitionKey e) (rowKey e) (SumToken e) (ActionDone e) v.

(** The message handed to the mail client (lines 108-122). *)
Record EmailMessage := mkEmail {
  senderAddress : string;
  recipients : list string;
  subject : string;
  plainText : string
}.

#[global] Instance EmailMessage_eq_dec : EqDecision EmailMessage.
Proof. solve_decision. Defined.

(** What the metrics endpoint returns, as far as the code reads it:
    [response.data.value[0].timeseries], each element with
    [metadatavalues[0].value] and [data[i].total]. *)
Record deployment := mkDeployment {
  metadatavalues : list string;
  data : list Z
}.

Record metric := mkMetric { timeseries : list deployment }.

Record HttpResponseInit := mkResponse { status : Z; body : string }.

(** The ways a store call fails (section 4.1 of the specification); the
    client library reports them as an error object with a [statusCode]. *)
Inductive store_error := NotFound | AlreadyExists | TransientError.

Inductive exn :=
| StoreError (e : store_error)
| AxiosError (response : option (Z * string)) (msg : string)
| TypeError (msg : string)
| Error (msg : string).

#[global] Instance store_error_eq_dec : EqDecision store_error.
Proof. solve_decision. Defined.
#[global] Instance exn_eq_dec : EqDecision exn.
Proof. solve_decision. Defined.

(** [error.statusCode] *)
Definition statusCode (error : exn) : option Z :=
  match error with
  | StoreError NotFound => Some 404
  | StoreError AlreadyExists => Some 409
  | _ => None
  end.

(** [error.response] and [error.message].  The texts of the store's own
    messages play no part in what follows. *)
Definition response_of (error : exn) : option (Z * string) :=
  match error with
  | AxiosError r _ => r
  | _ => None
  end.

Definition message (error : exn) : string :=
  match error with
  | StoreError NotFound => "The specified resource does not exist."
  | StoreError AlreadyExists => "The specified entity already exists."
  | StoreError TransientError => "request failed"
  | AxiosError _ m | TypeError m | Error m => m
  end.

(** ** Programs: one node per awaited call or console write *)

Inductive prog (A : Type) : Type :=
| Ret (a : A)
| GetEntity (pk rk : string) (k : exn + TableEntity -> prog A)
| CreateEntity (e : TableEntity) (k : exn + unit -> prog A)
| UpdateEntity (e : TableEntity) (k : exn + unit -> prog A)
| BeginSend (m : EmailMessage) (k : exn + string -> prog A)
| NewDate (k : string -> prog A)
| ConsoleLog (s : string) (e : option exn) (k : prog A)
| ConsoleError (s d : string) (e : exn) (k : prog A)
| GetToken (scope : string) (k : exn + string -> prog A)
| AxiosGet (url auth : string) (k : exn + list metric -> prog A).

Arguments Ret {A} a.
Arguments GetEntity {A} pk rk k.
Arguments CreateEntity {A} e k.
Arguments UpdateEntity {A} e k.
Arguments BeginSend {A} m k.
Arguments NewDate {A} k.
Arguments ConsoleLog {A} s e k.
Arguments ConsoleError {A} s d e k.
Arguments GetToken {A} scope k.
Arguments AxiosGet {A} url auth k.

Fixpoint bind_prog {A B} (p : prog A) (f : A -> prog B) : prog B :=
  match p with
  | Ret a => f a
  | GetEntity pk rk k => GetEntity pk rk (fun r => bind_prog (k r) f)
  | CreateEntity e k => CreateEntity e (fun r => bind_prog (k r) f)
  | UpdateEntity e k => UpdateEntity e (fun r => bind_prog (k r) f)
  | BeginSend m k => BeginSend m (fun r => bind_prog (k r) f)
  | NewDate k => NewDate (fun r => bind_prog (k r) f)
  | ConsoleLog s e k => ConsoleLog s e (bind_prog k f)
  | ConsoleError s d e k => ConsoleError s d e (bind_prog k f)
  | GetToken sc k => GetToken sc (fun r => bind_prog (k r) f)
  | AxiosGet u a k => AxiosGet u a (fun r => bind_prog (k r) f)
  end.

(** An async function body: it ends with a value or with a thrown error. *)
Definition task (A : Type) : Type := prog (exn + A).

Definition ret {A} (a : A) : task A := Ret (inr a).
Definition throw {A} (e : exn) : task A := Ret (inl e).

Definition bind {A B} (m : task A) (f : A -> task B) : task B :=
  bind_prog m (fun r => match r with inl e => Ret (inl e) | inr a => f a end).

Definition try_catch {A} (m : task A) (h : exn -> task A) : task A :=
  bind_prog m (fun r => match r with inl e => h e | inr a => Ret (inr a) end).

Declare Scope task_scope.
Delimit Scope task_scope with task.
Notation "'let*' x ':=' m 'in' k" := (bind m (fun x => k))
  (at level 10, x name, m at level 100, k at level 200,
   format "'[v' 'let*'  x  ':='  m  'in' '/' k ']'") : task_scope.
Notation "m ';;' k" := (bind m (fun _ => k))
  (at level 100, k at level 200, right associativity) : task_scope.

(** The awaited calls and the console, as tasks. *)
Definition getEntity (pk rk : string) : task TableEntity := GetEntity pk rk Ret.
Definition createEntity (e : TableEntity) : task unit := CreateEntity e Ret.
Definition updateEntity (e : TableEntity) : task unit := UpdateEntity e Ret.
Definition beginSend (m : EmailMessage) : task string := BeginSend m Ret.
Definition newDateISO : task string := NewDate (fun t => Ret (inr t)).
Definition console_log (s : string) (e : option exn) : task unit :=
  ConsoleLog s e (Ret (inr tt)).
Definition console_error (s d : string) (e : exn) : task unit :=
  ConsoleError s d e (Ret (inr tt)).
Definition getToken (scope : string) : task string := GetToken scope Ret.
Definition axios_get (url auth : string) : task (list metric) := AxiosGet url auth Ret.

(** ** The source functions *)

Definition THRESHOLD : Z := 1000.

(** Lines 47-52.  [entity?.ActionDone] of [null] is [undefined], which [!]
    turns into [true]. *)
Definition shouldSendAlert (entity : option TableEntity) (sumToken : Z) : bool :=
  negb (match entity with Some e => ActionDone e | None => false end)
  && (sumToken >? THRESHOLD).

Section Functions.

(** Values read from the process environment (lines 29-33). *)
Variables emailSenderAddress emailRecipientAddress resourceUri : string.

(** Local first instant of the month of a given instant, in ISO form
    ([new Date(y, m, 1).toISOString()], which depends on the time zone). *)
Variable startOfMonthISO : string -> string.

Local Open Scope task_scope.

(** Lines 107-127. *)
Definition sendMail (deploymentName : string) (sumToken : Z) : task string :=
  let emailMessage :=
    {| senderAddress := emailSenderAddress;
       recipients := [emailRecipientAddress];
       subject := "[Alert!] " +:+ deploymentName +:+ " has exceeded the threshold";
       plainText := "The deployment " +:+ deploymentName +:+
         " has exceeded the threshold of " +:+ pretty THRESHOLD +:+
         " tokens this month. The total token usage is " +:+ pretty sumToken +:+ "." |} in
  beginSend emailMessage.

(** Lines 54-105. *)
Definition evaluateTokenUsageForAlert
    (deploymentName : string) (sumToken : Z) (month : string) : task unit :=
  let rowKey := deploymentName +:+ "-" +:+ month in
  try_catch
    (let* entity :=
       try_catch (getEntity "DeploymentType" rowKey)
         (fun error =>
            if decide (statusCode error = Some 404) then
              let* now := newDateISO in
              let entity :=
                {| partitionKey := "DeploymentType";
                   rowKey := rowKey;
                   SumToken := sumToken;
                   ActionDone := false;
                   LastUpdated := now |} in
              createEntity entity ;;
              ret entity
            else throw error) in
     let* entity :=
       if shouldSendAlert (Some entity) sumToken then
         let* result := sendMail deploymentName sumToken in
         if decide (result = "Succeeded") then
           console_log ("Alert mail sent for " +:+ deploymentName) None ;;
           let entity := set_ActionDone true entity in
           let* now := newDateISO in
           let entity := set_LastUpdated now entity in
           updateEntity entity ;;
           ret entity
         else throw (Error "Failed to send mail")
       else
         console_log ("No alert needed for " +:+ deploymentName) None ;;
         ret entity in
     if sumToken >? SumToken entity then
       let entity := set_SumToken sumToken entity in
       let* now := newDateISO in
       let entity := set_LastUpdated now entity in
       updateEntity entity
     else ret tt)
    (fun error => console_error "Error processing deployment" deploymentName error).

(** Lines 35-45. *)
Definition getCurrentMonthTimespan : task string :=
  let* today := newDateISO in
  let startDateTimeISO := startOfMonthISO today in
  let endDateTimeISO := today in
  ret (startDateTimeISO +:+ "/" +:+ endDateTimeISO).

Definition getCurrentMonthString : task string :=
  let* now := newDateISO in
  ret (String.substring 0%nat 7%nat now).

(** Lines 152-159, the callback given to [timeseries.map]: reading
    [metadatavalues[0].value] of an empty array throws. *)
Definition process_deployment (month : string) (d : deployment) : task unit :=
  match metadatavalues d with
  | [] => throw (TypeError "Cannot read properties of undefined (reading 'value')")
  | deploymentName :: _ =>
      let sumToken := foldl Z.add 0 (data d) in
      evaluateTokenUsageForAlert deploymentName sumToken month
  end.

(** Lines 134-159: everything up to the list of promises. *)
Definition httpTrigger_promises : task (list (task unit)) :=
  let* accessToken := getToken "https://management.azure.com/.default" in
  let* timespan := getCurrentMonthTimespan in
  let apiUrl :=
    "https://management.azure.com/" +:+ resourceUri +:+
    "/providers/Microsoft.Insights/metrics?api-version=2023-10-01&metricnames=TokenTransaction&$filter=ModelDeploymentName eq '*'&interval=P1D&timespan="
    +:+ timespan in
  let* response := axios_get apiUrl ("Bearer " +:+ accessToken) in
  match response with
  | [] => throw (TypeError "Cannot read properties of undefined (reading 'timeseries')")
  | value0 :: _ =>
      let* month := getCurrentMonthString in
      ret (map (process_deployment month) (timeseries value0))
  end.

(** Lines 163-173: the response, from how the [try] block ended.
    [a || b] takes [b] when [a] is missing, [0] or the empty string. *)
Definition httpTrigger_response (outcome : exn + unit) : prog HttpResponseInit :=
  match outcome with
  | inr _ => Ret {| status := 200; body := "Success" |}
  | inl error =>
      ConsoleLog "Error" (Some error)
        (Ret {| status :=
                  match response_of error with
                  | Some (st, _) => if decide (st = 0) then 500 else st
                  | None => 500
                  end;
                body :=
                  match response_of error with
                  | Some (_, d) => if decide (d = "") then message error else d
                  | None => message error
                  end |})
  end.

End Functions.

(** ** The outside world *)

(** One entry per call that was made, with what it answered. *)
Inductive event :=
| EvGetEntity (pk rk : string) (r : exn + TableEntity)
| EvCreateEntity (e : TableEntity) (r : exn + unit)
| EvUpdateEntity (e : TableEntity) (r : exn + unit)
| EvBeginSend (m : EmailMessage) (r : exn + string)
| EvNewDate (t : string)
| EvConsoleLog (s : string) (e : option exn)
| EvConsoleError (s d : string) (e : exn)
| EvGetToken (scope : string) (r : exn + string)
| EvAxiosGet (url auth : string) (r : exn + list metric).

(** What the services answer at each instant: whether a store call fails
    for a reason of its own, what the mail client reports ([inl] when it
    throws), the time, the credential and the metrics endpoint. *)
Record env := mkEnv {
  store_fault : nat -> bool;
  mail_result : nat -> exn + string;
  clock : nat -> string;
  token_result : nat -> exn + string;
  metrics_result : nat -> exn + list metric
}.

(** The table keeps, under each (partitionKey, rowKey), the other
    properties of the entity; [tick] counts the calls made so far. *)
Abbreviation row := (Z * bool * string)%type.

Record world := mkWorld {
  table : gmap (string * string) row;
  tick : nat
}.

Definition entity_key (e : TableEntity) : string * string :=
  (partitionKey e, rowKey e).

Definition row_of (e : TableEntity) : row :=
  (SumToken e, ActionDone e, LastUpdated e).

Definition entity_of (k : string * string) (r : row) : TableEntity :=
  {| partitionKey := k.1; rowKey := k.2;
     SumToken := r.1.1; ActionDone := r.1.2; LastUpdated := r.2 |}.

Definition lookup_entity (t : gmap (string * string) row) (pk rk : string)
    : option TableEntity :=
  entity_of (pk, rk) <$> t !! (pk, rk).

(** Modelled from the spec: the table service behind [tableClient], which
    is not part of the repository (section 4.1).  [get] fails with
    [NotFound] if no record exists for the key; a call can also fail for a
    reason of the service's own, and then it changes nothing. *)
Definition store_get (E : env) (w : world) (pk rk : string) : exn + TableEntity :=
  if store_fault E (tick w) then inl (StoreError TransientError)
  else match lookup_entity (table w) pk rk with
       | Some e => inr e
       | None => inl (StoreError NotFound)
       end.

(** Modelled from the spec: [create] of the table service (section 4.1);
    it fails with [AlreadyExists] if the key is taken. *)
Definition store_create (E : env) (w : world) (e : TableEntity)
    : (exn + unit) * gmap (string * string) row :=
  if store_fault E (tick w) then (inl (StoreError TransientError), table w)
  else match table w !! entity_key e with
       | Some _ => (inl (StoreError AlreadyExists), table w)
       | None => (inr tt, <[entity_key e := row_of e]> (table w))
       end.

(** Modelled from the spec: [update] of the table service (section 4.1);
    it replaces the record, whoever wrote it last, and fails with
    [NotFound] if there is none. *)
Definition store_update (E : env) (w : world) (e : TableEntity)
    : (exn + unit) * gmap (string * string) row :=
  if store_fault E (tick w) then (inl (StoreError TransientError), table w)
  else match table w !! entity_key e with
       | Some _ => (inr tt, <[entity_key e := row_of e]> (table w))
       | None => (inl (StoreError NotFound), table w)
       end.

Definition next (w : world) (t : gmap (string * string) row) : world :=
  {| table := t; tick := S (tick w) |}.

(** One call of a program against the world. *)
Definition step {A} (E : env) (p : prog A) (w : world)
    : option (event * prog A * world) :=
  match p with
  | Ret _ => None
  | GetEntity pk rk k =>
      let r := store_get E w pk rk in
      Some (EvGetEntity pk rk r, k r, next w (table w))
  | CreateEntity e k =>
      let '(r, t) := store_create E w e in
      Some (EvCreateEntity e r, k r, next w t)
  | UpdateEntity e k =>
      let '(r, t) := store_update E w e in
      Some (EvUpdateEntity e r, k r, next w t)
  | BeginSend m k =>
      let r := mail_result E (tick w) in
      Some (EvBeginSend m r, k r, next w (table w))
  | NewDate k =>
      let t := clock E (tick w) in
      Some (EvNewDate t, k t, next w (table w))
  | ConsoleLog s e k => Some (EvConsoleLog s e, k, next w (table w))
  | ConsoleError s d e k => Some (EvConsoleError s d e, k, next w (table w))
  | GetToken sc k =>
      let r := token_result E (tick w) in
      Some (EvGetToken sc r, k r, next w (table w))
  | AxiosGet u a k =>
      let r := metrics_result E (tick w) in
      Some (EvAxiosGet u a r, k r, next w (table w))
  end.

(** A program run to its end with nothing else touching the world. *)
Fixpoint exec {A} (E : env) (p : prog A) (w : world) : A * world * list event :=
  match p with
  | Ret a => (a, w, [])
  | GetEntity pk rk k =>
      let r := store_get E w pk rk in
      let '(a, w', evs) := exec E (k r) (next w (table w)) in
      (a, w', EvGetEntity pk rk r :: evs)
  | CreateEntity e k =>
      let '(r, t) := store_create E w e in
      let '(a, w', evs) := exec E (k r) (next w t) in
      (a, w', EvCreateEntity e r :: evs)
  | UpdateEntity e k =>
      let '(r, t) := store_update E w e in
      let '(a, w', evs) := exec E (k r) (next w t) in
      (a, w', EvUpdateEntity e r :: evs)
  | BeginSend m k =>
      let r := mail_result E (tick w) in
      let '(a, w', evs) := exec E (k r) (next w (table w)) in
      (a, w', EvBeginSend m r :: evs)
  | NewDate k =>
      let t := clock E (tick w) in
      let '(a, w', evs) := exec E (k t) (next w (table w)) in
      (a, w', EvNewDate t :: evs)
  | ConsoleLog s e k =>
      let '(a, w', evs) := exec E k (next w (table w)) in
      (a, w', EvConsoleLog s e :: evs)
  | ConsoleError s d e k =>
      let '(a, w', evs) := exec E k (next w (table w)) in
      (a, w', EvConsoleError s d e :: evs)
  | GetToken sc k =>
      let r := token_result E (tick w) in
      let '(a, w', evs) := exec E (k r) (next w (table w)) in
      (a, w', EvGetToken sc r :: evs)
  | AxiosGet u a k =>
      let r := metrics_result E (tick w) in
      let '(a', w', evs) := exec E (k r) (next w (table w)) in
      (a', w', EvAxiosGet u a r :: evs)
  end.

(** ** Promises running together

    Pending async calls advance one awaited call at a time, in an order
    the code does not control: [sched] names which one moves next. *)
Definition pool_step {A} (E : env) (tid : nat) (ps : list (prog A)) (w : world)
    : list (prog A) * world * list (nat * event) :=
  match ps !! tid with
  | Some p =>
      match step E p w with
      | Some (ev, p', w') => (<[tid := p']> ps, w', [(tid, ev)])
      | None => (ps, w, [])
      end
  | None => (ps, w, [])
  end.

Fixpoint run_sched {A} (E : env) (sched : list nat) (ps : list (prog A)) (w : world)
    : list (prog A) * world * list (nat * event) :=
  match sched with
  | [] => (ps, w, [])
  | tid :: sched' =>
      let '(ps1, w1, evs1) := pool_step E tid ps w in
      let '(ps2, w2, evs2) := run_sched E sched' ps1 w1 in
      (ps2, w2, evs1 ++ evs2)
  end.

(** Whatever is still pending is run to its end, first to last. *)
Fixpoint settle {A} (E : env) (tid : nat) (ps : list (prog A)) (w : world)
    : list A * world * list (nat * event) :=
  match ps with
  | [] => ([], w, [])
  | p :: ps' =>
      let '(a, w1, evs1) := exec E p w in
      let '(rs, w2, evs2) := settle E (S tid) ps' w1 in
      (a :: rs, w2, map (pair tid) evs1 ++ evs2)
  end.

(** [await Promise.all(promises)]: every promise runs to its end; the
    outcomes come back in the order of the list. *)
Definition promise_all {A} (E : env) (sched : list nat) (ps : list (prog A)) (w : world)
    : list A * world * list (nat * event) :=
  let '(ps1, w1, evs1) := run_sched E sched ps w in
  let '(rs, w2, evs2) := settle E 0%nat ps1 w1 in
  (rs, w2, evs1 ++ evs2).

(** The first rejection among the outcomes, which is what the awaiting
    code sees thrown. *)
Fixpoint first_rejection (rs : list (exn + unit)) : exn + unit :=
  match rs with
  | [] => inr tt
  | inl error :: _ => inl error
  | inr _ :: rs' => first_rejection rs'
  end.

Section Invocation.

Variables emailSenderAddress emailRecipientAddress resourceUri : string.
Variable startOfMonthISO : string -> string.

(** Lines 129-174: one invocation.  The events of the handler itself
    carry [None], those of the promise of deployment [i] carry [Some i]. *)
Definition httpTrigger (E : env) (sched : list nat) (w : world)
    : HttpResponseInit * world * list (option nat * event) :=
  let '(fetched, w1, evs1) :=
    exec E (httpTrigger_promises emailSenderAddress emailRecipientAddress
              resourceUri startOfMonthISO) w in
  match fetched with
  | inl error =>
      let '(resp, w2, evs2) := exec E (httpTrigger_response (inl error)) w1 in
      (resp, w2, map (pair None) (evs1 ++ evs2))
  | inr promises =>
      let '(rs, w2, evs2) := promise_all E sched promises w1 in
      let '(resp, w3, evs3) := exec E (httpTrigger_response (first_rejection rs)) w2 in
      (resp, w3,
       map (pair None) evs1 ++ map (fun te => (Some (fst te), snd te)) evs2
       ++ map (pair None) evs3)
  end.

End Invocation.

(** ** Reading a record of events *)

(** What the mail client answered, call by call. *)
Definition mail_results (evs : list event) : list (exn + string) :=
  omap (fun ev => match ev with EvBeginSend _ r => Some r | _ => None end) evs.

(** The entities handed to [createEntity] and [updateEntity]. *)
Definition store_writes (evs : list event) : list TableEntity :=
  omap (fun ev => match ev with
                  | EvCreateEntity e _ | EvUpdateEntity e _ => Some e
                  | _ => None
                  end) evs.

(** The deployments [console.error] was called for, with the error. *)
Definition logged_errors (evs : list event) : list (string * exn) :=
  omap (fun ev => match ev with
                  | EvConsoleError _ d e => Some (d, e)
                  | _ => None
                  end) evs.

(** The events that carry a given tag. *)
Definition events_of {T} `{EqDecision T} (tag : T) (evs : list (T * event))
    : list event :=
  omap (fun te => if decide (te.1 = tag) then Some te.2 else None) evs.

(** ** Runs of a program, whoever else touches the world *)

(** [run_of p evs a]: the calls [evs], with the answers they record, are
    a run of [p] from its first call to its end, and [a] is how it ended.
    Nothing is said of where the answers come from: other programs may
    have changed the table in between. *)
Fixpoint run_of {A} (p : prog A) (evs : list event) (a : A) : Prop :=
  match p with
  | Ret a' => evs = [] /\ a = a'
  | GetEntity pk rk k =>
      exists r evs', evs = EvGetEntity pk rk r :: evs' /\ run_of (k r) evs' a
  | CreateEntity e k =>
      exists r evs', evs = EvCreateEntity e r :: evs' /\ run_of (k r) evs' a
  | UpdateEntity e k =>
      exists r evs', evs = EvUpdateEntity e r :: evs' /\ run_of (k r) evs' a
  | BeginSend m k =>
      exists r evs', evs = EvBeginSend m r :: evs' /\ run_of (k r) evs' a
  | NewDate k =>
      exists t evs', evs = EvNewDate t :: evs' /\ run_of (k t) evs' a
  | ConsoleLog s e k =>
      exists evs', evs = EvConsoleLog s e :: evs' /\ run_of k evs' a
  | ConsoleError s d e k =>
      exists evs', evs = EvConsoleError s d e :: evs' /\ run_of k evs' a
  | GetToken sc k =>
      exists r evs', evs = EvGetToken sc r :: evs' /\ run_of (k r) evs' a
  | AxiosGet u au k =>
      exists r evs', evs = EvAxiosGet u au r :: evs' /\ run_of (k r) evs' a
  end.

(** ** Sample worlds *)

Definition sample_metric : metric :=
  {| timeseries :=
       [ {| metadatavalues := ["gpt4dev"]; data := [700; 800] |};
         {| metadatavalues := ["gpt35"]; data := [100; 200] |} ] |}.

(** Every service answers and the mail is delivered. *)
Definition calm : env :=
  {| store_fault := fun _ => false;
     mail_result := fun _ => inr "Succeeded";
     clock := fun _ => "2024-10-28T10:00:00.000Z";
     token_result := fun _ => inr "token";
     metrics_result := fun _ => inr [sample_metric] |}.

(** The same, but the mail client reports a failed delivery. *)
Definition mail_down : env :=
  {| store_fault := fun _ => false;
     mail_result := fun _ => inr "Failed";
     clock := fun _ => "2024-10-28T10:00:00.000Z";
     token_result := fun _ => inr "token";
     metrics_result := fun _ => inr [sample_metric] |}.

(** The same as [calm], but every store call fails. *)
Definition store_down : env :=
  {| store_fault := fun _ => true;
     mail_result := fun _ => inr "Succeeded";
     clock := fun _ => "2024-10-28T10:00:00.000Z";
     token_result := fun _ => inr "token";
     metrics_result := fun _ => inr [sample_metric] |}.

Definition empty_world : world := {| table := ∅; tick := 0 |}.

(** A table with the record of gpt4dev for 2024-10. *)
Definition world_with (sumToken : Z) (actionDone : bool) : world :=
  {| table := {[ ("DeploymentType", "gpt4dev-2024-10")
                 := (sumToken, actionDone, "2024-10-01T00:00:00.000Z") ]};
     tick := 0 |}.

Definition sample_run (E : env) (sumToken : Z) (w : world)
    : (exn + unit) * world * list event :=
  exec E (evaluateTokenUsageForAlert "alerts@example.com" "ops@example.com"
            "gpt4dev" sumToken "2024-10") w.

Definition sample_flag (w : world) : option bool :=
  ActionDone <$> lookup_entity (table w) "DeploymentType" "gpt4dev-2024-10".

Definition sample_usage (w : world) : option Z :=
  SumToken <$> lookup_entity (table w) "DeploymentType" "gpt4dev-2024-10".

(** Two reconciliations of the same record, as two overlapping invocations
    start them. *)
Definition pair_of_runs (n0 n1 : Z) : list (task unit) :=
  [ evaluateTokenUsageForAlert "alerts@example.com" "ops@example.com" "gpt4dev" n0 "2024-10";
    evaluateTokenUsageForAlert "alerts@example.com" "ops@example.com" "gpt4dev" n1 "2024-10" ].

Definition sample_trigger (E : env) (sched : list nat) (w : world)
    : HttpResponseInit * world * list (option nat * event) :=
  httpTrigger "alerts@example.com" "ops@example.com" "/subscriptions/s1"
    (fun _ => "2024-10-01T00:00:00.000Z") E sched w.

(** ** More ways to read a record of events *)

(** The keys handed to [getEntity]. *)
Definition store_reads (evs : list event) : list (string * string) :=
  omap (fun ev => match ev with EvGetEntity pk rk _ => Some (pk, rk) | _ => None end) evs.

(** The entity of a call to [createEntity] or [updateEntity]. *)
Definition write_of (ev : event) : option TableEntity :=
  match ev with
  | EvCreateEntity e _ | EvUpdateEntity e _ => Some e
  | _ => None
  end.

(** The error a call leaves [evaluateTokenUsageForAlert] with: what the
    store or the mail client threw, except a 404 on the read (lines 67-76),
    and the error of line 91 for a mail status other than "Succeeded". *)
Definition failure_of (ev : event) : option exn :=
  match ev with
  | EvGetEntity _ _ (inl error) =>
      if decide (statusCode error = Some 404) then None else Some error
  | EvCreateEntity _ (inl error) | EvUpdateEntity _ (inl error)
  | EvBeginSend _ (inl error) => Some error
  | EvBeginSend _ (inr result) =>
      if decide (result = "Succeeded") then None
      else Some (Error "Failed to send mail")
  | _ => None
  end.

(** [confined K p]: whatever the services answer, as long as the store
    answers a read with an entity of the key that was asked for, [p] hands
    to [createEntity] and [updateEntity] only entities whose key is in
    [K]. *)
Fixpoint confined (K : string * string -> Prop) {A} (p : prog A) : Prop :=
  match p with
  | Ret _ => True
  | GetEntity pk rk c =>
      forall r, (forall e, r = inr e -> entity_key e = (pk, rk)) -> confined K (c r)
  | CreateEntity e c => K (entity_key e) /\ forall r, confined K (c r)
  | UpdateEntity e c => K (entity_key e) /\ forall r, confined K (c r)
  | BeginSend _ c => forall r, confined K (c r)
  | NewDate c => forall t, confined K (c t)
  | ConsoleLog _ _ c => confined K c
  | ConsoleError _ _ _ c => confined K c
  | GetToken _ c => forall r, confined K (c r)
  | AxiosGet _ _ c => forall r, confined K (c r)
  end.

(** The keys of the records of the deployments of an answer of the metrics
    endpoint, for a month; a deployment without a name has none. *)
Definition listed_keys (month : string) (ts : list deployment)
    : list (string * string) :=
  omap (fun d => (fun deploymentName =>
                    ("DeploymentType", deploymentName +:+ "-" +:+ month))
                 <$> head (metadatavalues d)) ts.

(** ** More sample worlds *)

(** As [calm], with a given answer of the metrics endpoint. *)
Definition answering (r : exn + list metric) : env :=
  {| store_fault := fun _ => false;
     mail_result := fun _ => inr "Succeeded";
     clock := fun _ => "2024-10-28T10:00:00.000Z";
     token_result := fun _ => inr "token";
     metrics_result := fun _ => r |}.

(** As [calm], with the month turning between the second and the third
    call of the invocation. *)
Definition turn_of_month : env :=
  {| store_fault := fun _ => false;
     mail_result := fun _ => inr "Succeeded";
     clock := fun t => if (t <? 2)%nat then "2024-10-31T23:59:59.900Z"
                       else "2024-11-01T00:00:00.100Z";
     token_result := fun _ => inr "token";
     metrics_result := fun _ => inr [sample_metric] |}.

(** A metric with a deployment that has no name. *)
Definition nameless_metric : metric :=
  {| timeseries :=
       [ {| metadatavalues := []; data := [5] |};
         {| metadatavalues := ["gpt4dev"]; data := [700; 800] |} ] |}.

(** A table with a record that belongs to no deployment of [sample_metric]. *)
Definition world_with_other : world :=
  {| table := {[ ("DeploymentType", "legacy-2024-10")
                 := (40, false, "2024-10-02T00:00:00.000Z") ]};
     tick := 0 |}.

(** * Properties *)

(** ** The alert policy *)

(** C1. [shouldSendAlert] answers [true] exactly when the new usage is
    strictly above [THRESHOLD] and the record is absent or has
    [ActionDone = false]; so it answers [false] whenever the usage is at
    most [THRESHOLD], and for every record with [ActionDone = true]. *)
Theorem shouldSendAlert_iff (entity : option TableEntity) (newUsage : Z) :
  (shouldSendAlert entity newUsage = true <->
     newUsage > THRESHOLD /\
     (entity = None \/ exists r, entity = Some r /\ ActionDone r = false))
  /\ (newUsage <= THRESHOLD -> shouldSendAlert entity newUsage = false)
  /\ (forall r, entity = Some r -> ActionDone r = true ->
        shouldSendAlert entity newUsage = false).
Proof.
  unfold shouldSendAlert. rewrite Z.gtb_ltb.
  destruct (Z.ltb_spec THRESHOLD newUsage) as [Hlt | Hge];
    destruct entity as [r|]; [destruct (ActionDone r) eqn:Hr | | | ]; cbn.
  - split_and!; [ | lia | done]. split; [done | intros [_ [? | (r' & ? & ?)]]].
    + done.
    + congruence.
  - split_and!; [ | lia | ].
    + split; [intros _; split; [lia | eauto] | done].
    + intros r' [= <-] ?. congruence.
  - split_and!; [ | lia | done]. split; [intros _; split; [lia | eauto] | done].
  - rewrite andb_false_r. split_and!; [ | done | done]. split; [done | lia].
  - split_and!; [ | done | done]. split; [done | lia].
Qed.

(** ** One reconciliation with nothing else touching the table *)

Lemma lookup_entity_Some t pk rk e :
  lookup_entity t pk rk = Some e <->
  exists r, t !! (pk, rk) = Some r /\ e = entity_of (pk, rk) r.
Proof.
  unfold lookup_entity. destruct (t !! (pk, rk)) as [r|]; cbn; naive_solver.
Qed.

Lemma lookup_entity_None t pk rk :
  lookup_entity t pk rk = None <-> t !! (pk, rk) = None.
Proof. unfold lookup_entity. destruct (t !! (pk, rk)); cbn; naive_solver. Qed.

Lemma Z_gtb_irrefl n : (n >? n) = false.
Proof. rewrite Z.gtb_ltb. apply Z.ltb_irrefl. Qed.

(** Symbolic execution of [exec] in a hypothesis [H]: unfold the program,
    use what is known of the answers, and split on what is not. *)
Ltac red_exec H :=
  repeat progress
    (cbn [exec bind_prog bind try_catch ret throw getEntity createEntity updateEntity
          beginSend newDateISO console_log console_error statusCode next table tick
          partitionKey rowKey SumToken ActionDone LastUpdated
          fmap option_fmap option_map fst snd negb andb] in H;
     unfold store_get, store_create, store_update, lookup_entity, shouldSendAlert,
       entity_key, entity_of, row_of, set_SumToken, set_ActionDone,
       set_LastUpdated in H).

Ltac use_known H :=
  repeat match goal with
  | Hx : store_fault _ _ = _ |- _ => rewrite Hx in H
  | Hx : forall t : nat, @?P t |- _ => rewrite Hx in H
  | Hx : mail_result _ _ = _ |- _ => rewrite Hx in H
  | Hx : _ !! _ = _ |- _ => rewrite Hx in H
  | Hx : (_ >? _) = _ |- _ => rewrite Hx in H
  | _ => rewrite lookup_insert_eq in H
  | _ => rewrite Z_gtb_irrefl in H
  end.

Ltac branch H :=
  lazymatch type of H with
  | context [store_fault ?E ?t] => destruct (store_fault E t) eqn:?
  | context [mail_result ?E ?t] => destruct (mail_result E t) as [?|?] eqn:?
  | context [decide ?P] => destruct (decide P)
  | context [?a >? ?b] => destruct (a >? b) eqn:?
  | context [@lookup _ _ (gmap _ _) _ ?k ?t] =>
      destruct (t !! k) as [[[? ?] ?]|] eqn:?
  | context [negb ?b] => destruct b
  end.

Ltac sym_exec H :=
  unfold evaluateTokenUsageForAlert, sendMail in H;
  repeat (red_exec H; use_known H; red_exec H; try branch H);
  simplify_eq.

(** What is left at the end of a run: lookups in the final table, the
    lists read off the events, comparisons. *)
Ltac leaf :=
  unfold lookup_entity, mail_results, store_writes, logged_errors, entity_of,
    entity_key, THRESHOLD in *;
  cbn [table next tick omap list_omap fmap option_fmap option_map fst snd
       partitionKey rowKey SumToken ActionDone LastUpdated negb andb] in *;
  repeat match goal with
  | Hx : (_ >? _) = true |- _ => rewrite Z.gtb_ltb, Z.ltb_lt in Hx
  | Hx : (_ >? _) = false |- _ => rewrite Z.gtb_ltb, Z.ltb_ge in Hx
  end;
  rewrite ?lookup_insert_eq, ?insert_insert_eq in *;
  repeat match goal with
  | Hx : _ !! _ = _ |- _ => rewrite Hx in *
  end;
  cbn [fmap option_fmap option_map fst snd
       partitionKey rowKey SumToken ActionDone LastUpdated] in *.

Ltac elems H :=
  repeat (apply elem_of_cons in H as [H | H]);
  try (apply elem_of_nil in H; destruct H).

Ltac finish :=
  first [ done | lia | naive_solver (eauto; lia) ].

Section Reconciliation.

Context (sender recipient : string).

Abbreviation reconcile := (evaluateTokenUsageForAlert sender recipient).

(** C10. When the record exists, the policy says no alert and the new usage
    is not above the stored one, the run calls neither [createEntity] nor
    [updateEntity], and the table, [LastUpdated] included, is as before. *)
Theorem no_write_when_nothing_to_record E w name n month e a w' evs :
  lookup_entity (table w) "DeploymentType" (name +:+ "-" +:+ month) = Some e ->
  shouldSendAlert (Some e) n = false ->
  n <= SumToken e ->
  exec E (reconcile name n month) w = (a, w', evs) ->
  store_writes evs = [] /\ table w' = table w.
Proof.
  intros ([[s b] l] & Hl & ->)%lookup_entity_Some Hs Hn H.
  unfold shouldSendAlert in Hs. cbn in Hs, Hn.
  sym_exec H; leaf; first [ done | lia ].
Qed.

(** C9. Scenario A: no record, a new usage of 1500 against the threshold
    of 1000, the store and the mail client both working.  The record is
    created with [SumToken = 1500], the mail client is called once, and
    the record ends with [ActionDone = true]. *)
Theorem scenario_A_first_crossing E w name month a w' evs :
  (forall t, store_fault E t = false) ->
  (forall t, mail_result E t = inr "Succeeded") ->
  lookup_entity (table w) "DeploymentType" (name +:+ "-" +:+ month) = None ->
  exec E (reconcile name 1500 month) w = (a, w', evs) ->
  THRESHOLD = 1000
  /\ (exists e, EvCreateEntity e (inr tt) ∈ evs
        /\ entity_key e = ("DeploymentType", name +:+ "-" +:+ month)
        /\ SumToken e = 1500 /\ ActionDone e = false)
  /\ mail_results evs = [inr "Succeeded"]
  /\ (exists e', lookup_entity (table w') "DeploymentType" (name +:+ "-" +:+ month)
                 = Some e'
        /\ SumToken e' = 1500 /\ ActionDone e' = true).
Proof.
  intros Hstore Hmail Hl%lookup_entity_None H.
  sym_exec H; leaf.
  split_and!; [done | | done | eauto].
  eexists; split; [by apply list_elem_of_lookup_2 with 2%nat | done].
Qed.

(** C2, as the code has it.  The usage is recorded when the alert step
    does not fail: with a working store and a new usage above the stored
    one, the record ends with [SumToken = n] if no mail was attempted or
    the mail client answered "Succeeded".  When the mail client was called
    and answered anything else, the run stops there and the table is left
    as it was, [SumToken] included. *)
Theorem usage_recorded_unless_notifier_fails E w name n month e a w' evs :
  lookup_entity (table w) "DeploymentType" (name +:+ "-" +:+ month) = Some e ->
  exec E (reconcile name n month) w = (a, w', evs) ->
  ((forall t, store_fault E t = false) ->
   SumToken e < n ->
   mail_results evs = [] \/ mail_results evs = [inr "Succeeded"] ->
   exists e', lookup_entity (table w') "DeploymentType" (name +:+ "-" +:+ month)
                = Some e'
     /\ SumToken e' = n)
  /\ (forall r, r ∈ mail_results evs -> r <> inr "Succeeded" ->
        table w' = table w).
Proof.
  intros ([[s b] l] & Hl & ->)%lookup_entity_Some H.
  sym_exec H; leaf.
  all: split; [ intros Hstore Hlt Hmail | intros r Hr Hne ].
  all: try rewrite Hstore in *.
  all: try apply list_elem_of_singleton in Hr.
  all: try apply elem_of_nil in Hr.
  all: finish.
Qed.

(** C5, as the code has it.  After a run on an existing record the stored
    [SumToken] is never below what it was, and it is the larger of the old
    value and the new usage whenever the run logged no error (no store
    call failed and no mail failed). *)
Theorem usage_is_max_when_run_completes E w name n month e a w' evs :
  lookup_entity (table w) "DeploymentType" (name +:+ "-" +:+ month) = Some e ->
  exec E (reconcile name n month) w = (a, w', evs) ->
  exists e', lookup_entity (table w') "DeploymentType" (name +:+ "-" +:+ month)
               = Some e'
    /\ SumToken e <= SumToken e'
    /\ (logged_errors evs = [] -> SumToken e' = Z.max (SumToken e) n).
Proof.
  intros ([[s b] l] & Hl & ->)%lookup_entity_Some H.
  sym_exec H; leaf.
  all: eexists; split; [reflexivity | cbn; split; [lia | intros ?; finish]].
Qed.

(** A run on a record whose flag is already set: no mail, every write
    carries the flag, and the record keeps it; other records are not
    touched. *)
Lemma run_with_flag_set E w name n month s l a w' evs :
  table w !! ("DeploymentType", name +:+ "-" +:+ month) = Some (s, true, l) ->
  exec E (reconcile name n month) w = (a, w', evs) ->
  mail_results evs = []
  /\ (forall e, e ∈ store_writes evs -> ActionDone e = true)
  /\ (exists s' l',
        table w' !! ("DeploymentType", name +:+ "-" +:+ month) = Some (s', true, l'))
  /\ (forall k, k <> ("DeploymentType", name +:+ "-" +:+ month) ->
        table w' !! k = table w !! k).
Proof.
  intros Hl H.
  sym_exec H; leaf.
  all: split_and!; [ done | intros e He | eauto | intros k Hk ].
  all: try apply list_elem_of_singleton in He.
  all: try apply elem_of_nil in He.
  all: rewrite ?lookup_insert_ne by done.
  all: finish.
Qed.

(** A run on a record whose flag is not set, with a usage above the
    threshold and a working read, calls the mail client. *)
Lemma run_with_alert_due E w name n month s l a w' evs :
  table w !! ("DeploymentType", name +:+ "-" +:+ month) = Some (s, false, l) ->
  THRESHOLD < n ->
  store_fault E (tick w) = false ->
  exec E (reconcile name n month) w = (a, w', evs) ->
  mail_results evs <> [].
Proof.
  intros Hl Hn Hf H.
  sym_exec H; leaf; finish.
Qed.

(** A run in which the mail client was called and did not answer
    "Succeeded": the record is there with its flag unset, the usage was
    above the threshold, and the error was logged for the deployment. *)
Lemma run_with_failed_mail E w name n month a w' evs r :
  exec E (reconcile name n month) w = (a, w', evs) ->
  r ∈ mail_results evs -> r <> inr "Succeeded" ->
  (exists s l,
     table w' !! ("DeploymentType", name +:+ "-" +:+ month) = Some (s, false, l))
  /\ THRESHOLD < n
  /\ (exists error, logged_errors evs = [(name, error)]).
Proof.
  intros H Hr Hne.
  sym_exec H; leaf; elems Hr; subst; try done.
  all: split_and!; [ by eauto | done | by eexists ].
Qed.

(** C4. The flag is set and stored only after the mail client answered
    "Succeeded": every write that carries [ActionDone = true], and a flag
    found set after the run, trace back to that answer unless the flag was
    set before.  When the mail client was called and answered anything else
    (or threw), the stored flag is [false], the run is reported through
    [console.error] for that deployment, and a later run with a working
    read calls the mail client again. *)
Theorem flag_set_only_after_successful_mail E w name n month a w' evs :
  exec E (reconcile name n month) w = (a, w', evs) ->
  let flag (t : gmap (string * string) row) :=
    ActionDone <$> lookup_entity t "DeploymentType" (name +:+ "-" +:+ month) in
  (forall e, e ∈ store_writes evs -> ActionDone e = true ->
     flag (table w) = Some true \/ mail_results evs = [inr "Succeeded"])
  /\ (flag (table w') = Some true ->
      flag (table w) = Some true \/ mail_results evs = [inr "Succeeded"])
  /\ (forall r, r ∈ mail_results evs -> r <> inr "Succeeded" ->
        flag (table w') = Some false
        /\ (exists error, logged_errors evs = [(name, error)])
        /\ (forall E2 a2 w2 evs2,
              store_fault E2 (tick w') = false ->
              exec E2 (reconcile name n month) w' = (a2, w2, evs2) ->
              mail_results evs2 <> [])).
Proof.
  intros H flag; subst flag; cbn beta.
  split_and!; [ | | intros r Hr Hne ].
  3: {
    destruct (run_with_failed_mail _ _ _ _ _ _ _ _ _ H Hr Hne)
      as ((s & l & Hl) & Hn & Herr).
    split_and!; [ unfold lookup_entity; by rewrite Hl | done | ].
    intros E2 a2 w2 evs2 Hf2 H2.
    by eapply run_with_alert_due.
  }
  - intros wr Hwr Hflag. sym_exec H; leaf.
    all: elems Hwr; subst.
    all: cbn [partitionKey rowKey SumToken ActionDone LastUpdated] in *.
    all: finish.
  - intros Hflag. sym_exec H; leaf; finish.
Qed.

(** C6. After a run that mailed successfully and left the flag set, a
    second run with the same usage does not call the mail client, and the
    flag is still set after it. *)
Theorem second_run_sends_nothing E1 E2 w name n month a1 w1 evs1 a2 w2 evs2 :
  exec E1 (reconcile name n month) w = (a1, w1, evs1) ->
  inr "Succeeded" ∈ mail_results evs1 ->
  ActionDone <$> lookup_entity (table w1) "DeploymentType" (name +:+ "-" +:+ month)
    = Some true ->
  exec E2 (reconcile name n month) w1 = (a2, w2, evs2) ->
  mail_results evs2 = []
  /\ ActionDone <$> lookup_entity (table w2) "DeploymentType" (name +:+ "-" +:+ month)
     = Some true.
Proof.
  intros _ _ Hflag H2.
  destruct (lookup_entity _ _ _) as [e1|] eqn:Hl in Hflag; [|done].
  apply lookup_entity_Some in Hl as ([[s b] l] & Hl & ->).
  cbn in Hflag. injection Hflag as ->.
  destruct (run_with_flag_set _ _ _ _ _ _ _ _ _ _ Hl H2)
    as (Hmail & _ & (s' & l' & Hl') & _).
  split; [done|]. unfold lookup_entity. by rewrite Hl'.
Qed.

(** C7, as the code has it.  When nothing else writes the record between
    the read and the writes of a run, a flag that is set stays set: the
    run ends with [ActionDone = true] stored, every entity it writes
    carries [ActionDone = true], and it leaves the other records alone.
    (The entity written back carries the flag as it was read.) *)
Theorem flag_stays_set_without_overlap E w name n month e a w' evs :
  lookup_entity (table w) "DeploymentType" (name +:+ "-" +:+ month) = Some e ->
  ActionDone e = true ->
  exec E (reconcile name n month) w = (a, w', evs) ->
  (exists e', lookup_entity (table w') "DeploymentType" (name +:+ "-" +:+ month)
                = Some e'
     /\ ActionDone e' = true)
  /\ (forall e'', e'' ∈ store_writes evs -> ActionDone e'' = true)
  /\ (forall k, k <> ("DeploymentType", name +:+ "-" +:+ month) ->
        table w' !! k = table w !! k).
Proof.
  intros ([[s b] l] & Hl & ->)%lookup_entity_Some Hflag H.
  cbn in Hflag; subst b.
  destruct (run_with_flag_set _ _ _ _ _ _ _ _ _ _ Hl H)
    as (_ & Hwrites & (s' & l' & Hl') & Hframe).
  split_and!; [ | done | done ].
  unfold lookup_entity. rewrite Hl'. by eexists.
Qed.

End Reconciliation.

(** ** Promises running together *)

Lemma step_run_of {A} E (p : prog A) w ev p' w' rest a :
  step E p w = Some (ev, p', w') -> run_of p' rest a -> run_of p (ev :: rest) a.
Proof.
  destruct p; cbn; try done.
  all: repeat case_match; intros [= <- <- <-] Hrun; eauto.
Qed.

Lemma exec_run_of {A} E (p : prog A) : forall w a w' evs,
  exec E p w = (a, w', evs) -> run_of p evs a.
Proof.
  induction p as [a0|pk rk k IH|e k IH|e k IH|m k IH|k IH|s e k IH|s d e k IH
                 |sc k IH|u au k IH]; intros w a w' evs; cbn.
  - by intros [= <- <- <-].
  - destruct (exec E (k _) _) as [[a1 w1] evs1] eqn:Hk.
    intros [= <- <- <-]. eauto.
  - destruct (store_create E w e) as [r t].
    destruct (exec E (k _) _) as [[a1 w1] evs1] eqn:Hk.
    intros [= <- <- <-]. eauto.
  - destruct (store_update E w e) as [r t].
    destruct (exec E (k _) _) as [[a1 w1] evs1] eqn:Hk.
    intros [= <- <- <-]. eauto.
  - destruct (exec E (k _) _) as [[a1 w1] evs1] eqn:Hk.
    intros [= <- <- <-]. eauto.
  - destruct (exec E (k _) _) as [[a1 w1] evs1] eqn:Hk.
    intros [= <- <- <-]. eauto.
  - destruct (exec E k _) as [[a1 w1] evs1] eqn:Hk.
    intros [= <- <- <-]. eauto.
  - destruct (exec E k _) as [[a1 w1] evs1] eqn:Hk.
    intros [= <- <- <-]. eauto.
  - destruct (exec E (k _) _) as [[a1 w1] evs1] eqn:Hk.
    intros [= <- <- <-]. eauto.
  - destruct (exec E (k _) _) as [[a1 w1] evs1] eqn:Hk.
    intros [= <- <- <-]. eauto.
Qed.

Lemma events_of_app {T} `{EqDecision T} (tag : T) (l1 l2 : list (T * event)) :
  events_of tag (l1 ++ l2) = events_of tag l1 ++ events_of tag l2.
Proof. apply omap_app. Qed.

Lemma events_of_same {T} `{EqDecision T} (tag : T) (evs : list event) :
  events_of tag (map (pair tag) evs) = evs.
Proof.
  induction evs as [|ev evs IH]; [done|].
  cbn. rewrite decide_True by done. cbn. by f_equal.
Qed.

Lemma events_of_other {T} `{EqDecision T} (tag tag' : T) (evs : list event) :
  tag' <> tag -> events_of tag (map (pair tag') evs) = [].
Proof.
  intros Hne. induction evs as [|ev evs IH]; [done|].
  cbn. by rewrite decide_False by done.
Qed.

Lemma run_sched_run_of {A} E sched : forall (ps : list (prog A)) w ps' w' evs,
  run_sched E sched ps w = (ps', w', evs) ->
  forall tid p, ps !! tid = Some p ->
    exists q, ps' !! tid = Some q
      /\ forall rest a, run_of q rest a -> run_of p (events_of tid evs ++ rest) a.
Proof.
  induction sched as [|t sched IH]; intros ps w ps' w' evs; cbn.
  - intros [= <- <- <-] tid p Hp. by exists p.
  - destruct (pool_step E t ps w) as [[ps1 w1] evs1] eqn:Hstep.
    destruct (run_sched E sched ps1 w1) as [[ps2 w2] evs2] eqn:Hrest.
    intros [= <- <- <-] tid p Hp.
    unfold pool_step in Hstep.
    destruct (ps !! t) as [p0|] eqn:Hp0; last first.
    { injection Hstep as <- <- <-. exact (IH _ _ _ _ _ Hrest _ _ Hp). }
    destruct (step E p0 w) as [[[ev p0'] w0]|] eqn:Hs; last first.
    { injection Hstep as <- <- <-. exact (IH _ _ _ _ _ Hrest _ _ Hp). }
    injection Hstep as <- <- <-.
    destruct (decide (tid = t)) as [->|Hne].
    + assert (p0 = p) as -> by congruence.
      destruct (IH _ _ _ _ _ Hrest t p0') as (q & Hq & Hrun).
      { apply list_lookup_insert_eq. by eapply lookup_lt_Some. }
      exists q. split; [done|]. intros rest a Ha.
      cbn. rewrite decide_True by done. cbn.
      eapply step_run_of; eauto.
    + destruct (IH _ _ _ _ _ Hrest tid p) as (q & Hq & Hrun).
      { by rewrite list_lookup_insert_ne. }
      exists q. split; [done|]. intros rest a Ha.
      cbn. rewrite decide_False by done. cbn. eauto.
Qed.

Lemma settle_run_of {A} E : forall (ps : list (prog A)) i w rs w' evs,
  settle E i ps w = (rs, w', evs) ->
  (forall tid, (tid < i)%nat -> events_of tid evs = [])
  /\ forall j p, ps !! j = Some p ->
       exists a, rs !! j = Some a /\ run_of p (events_of (i + j)%nat evs) a.
Proof.
  induction ps as [|p0 ps IH]; intros i w rs w' evs; cbn.
  - intros [= <- <- <-]. split; [done|]. intros j p Hp. done.
  - destruct (exec E p0 w) as [[a0 w1] evs1] eqn:Hexec.
    destruct (settle E (S i) ps w1) as [[rs2 w2] evs2] eqn:Hrest.
    intros [= <- <- <-].
    destruct (IH _ _ _ _ _ Hrest) as [Hbelow Hruns].
    split.
    + intros tid Hlt. rewrite events_of_app, events_of_other by lia.
      rewrite Hbelow by lia. done.
    + intros [|j] p Hp; cbn in Hp.
      * injection Hp as ->. exists a0. split; [done|].
        rewrite Nat.add_0_r, events_of_app, events_of_same.
        rewrite Hbelow by lia. rewrite app_nil_r.
        by eapply exec_run_of.
      * destruct (Hruns j p Hp) as (a & Ha & Hrun).
        exists a. split; [done|].
        rewrite events_of_app, events_of_other by lia. cbn.
        by replace (i + S j)%nat with (S i + j)%nat by lia.
Qed.

(** Every promise given to [Promise.all] runs from its first call to its
    end, whatever the others do. *)
Lemma promise_all_run_of {A} E sched (ps : list (prog A)) w rs w' evs tid p :
  promise_all E sched ps w = (rs, w', evs) ->
  ps !! tid = Some p ->
  exists a, rs !! tid = Some a /\ run_of p (events_of tid evs) a.
Proof.
  unfold promise_all.
  destruct (run_sched E sched ps w) as [[ps1 w1] evs1] eqn:Hsched.
  destruct (settle E 0 ps1 w1) as [[rs2 w2] evs2] eqn:Hsettle.
  intros [= <- <- <-] Hp.
  destruct (run_sched_run_of _ _ _ _ _ _ _ Hsched _ _ Hp) as (q & Hq & Hrun).
  destruct (settle_run_of _ _ _ _ _ _ _ Hsettle) as [_ Hruns].
  destruct (Hruns _ _ Hq) as (a & Ha & Hqa).
  exists a. split; [done|]. rewrite events_of_app. by apply Hrun.
Qed.

Lemma run_sched_length {A} E sched : forall (ps : list (prog A)) w ps' w' evs,
  run_sched E sched ps w = (ps', w', evs) -> length ps' = length ps.
Proof.
  induction sched as [|t sched IH]; intros ps w ps' w' evs; cbn.
  - by intros [= <- <- <-].
  - destruct (pool_step E t ps w) as [[ps1 w1] evs1] eqn:Hstep.
    destruct (run_sched E sched ps1 w1) as [[ps2 w2] evs2] eqn:Hrest.
    intros [= <- <- <-]. rewrite (IH _ _ _ _ _ Hrest).
    unfold pool_step in Hstep. repeat case_match; simplify_eq; try done.
    apply length_insert.
Qed.

Lemma settle_length {A} E : forall (ps : list (prog A)) i w rs w' evs,
  settle E i ps w = (rs, w', evs) -> length rs = length ps.
Proof.
  induction ps as [|p0 ps IH]; intros i w rs w' evs; cbn.
  - by intros [= <- <- <-].
  - destruct (exec E p0 w) as [[a0 w1] evs1].
    destruct (settle E (S i) ps w1) as [[rs2 w2] evs2] eqn:Hrest.
    intros [= <- <- <-]. cbn. f_equal. eauto.
Qed.

(** If no promise can end rejected, none of the outcomes is a rejection. *)
Lemma promise_all_fulfilled E sched (ps : list (task unit)) w rs w' evs :
  promise_all E sched ps w = (rs, w', evs) ->
  (forall p evs' a, p ∈ ps -> run_of p evs' a -> a = inr tt) ->
  first_rejection rs = inr tt.
Proof.
  intros Hall Hps.
  assert (Forall (fun a => a = inr tt) rs) as Hrs.
  { apply Forall_lookup. intros j a Ha.
    assert (length rs = length ps) as Hlen.
    { unfold promise_all in Hall.
      destruct (run_sched E sched ps w) as [[ps1 w1] evs1] eqn:Hsched.
      destruct (settle E 0 ps1 w1) as [[rs2 w2] evs2] eqn:Hsettle.
      injection Hall as <- <- <-.
      rewrite (settle_length _ _ _ _ _ _ _ Hsettle).
      by eapply run_sched_length. }
    destruct (lookup_lt_is_Some_2 ps j) as [p Hp].
    { rewrite <- Hlen. by eapply lookup_lt_Some. }
    destruct (promise_all_run_of _ _ _ _ _ _ _ _ _ Hall Hp) as (a' & Ha' & Hrun).
    assert (a' = a) as -> by congruence.
    eapply Hps; [|done]. by eapply list_elem_of_lookup_2. }
  clear Hall. induction Hrs as [|a rs -> _ IH]; [done|]. done.
Qed.

(** ** A reconciliation among others *)

Section Races.
Context (sender recipient : string).
Abbreviation reconcile := (evaluateTokenUsageForAlert sender recipient).

(** Splitting a hypothetical run [H : run_of p evs a] along [p]. *)
Ltac red_run H :=
  repeat progress
    (cbn [run_of bind_prog bind try_catch ret throw getEntity createEntity updateEntity
          beginSend newDateISO console_log console_error statusCode] in H).

Ltac split_run H :=
  lazymatch type of H with
  | exists _ : _ + _, _ => destruct H as ([?|?] & ? & -> & H)
  | exists _ : string, _ => destruct H as (? & ? & -> & H)
  | exists _ : list event, _ => destruct H as (? & -> & H)
  | _ /\ _ => destruct H as [-> ->]
  | context [decide ?P] => destruct (decide P)
  | context [if ?b then _ else _] => destruct b eqn:?
  end.

Ltac sym_run H :=
  unfold evaluateTokenUsageForAlert, sendMail in H;
  repeat (red_run H; split_run H).

Lemma reconcile_runs name n month evs a :
  run_of (reconcile name n month) evs a ->
  a = inr tt
  /\ forall e error, EvCreateEntity e (inl error) ∈ evs ->
       exists now,
         evs = [EvGetEntity "DeploymentType" (name +:+ "-" +:+ month)
                  (inl (StoreError NotFound));
                EvNewDate now;
                EvCreateEntity e (inl error);
                EvConsoleError "Error processing deployment" name error].
Proof.
  intros H. sym_run H.
  all: repeat match goal with u : unit |- _ => destruct u end.
  all: split; [done|]; intros e' error Hin; elems Hin; simplify_eq.
  match goal with
  | Hx : statusCode ?e = Some 404 |- _ => destruct e as [[]| | |]; try done
  end.
  by eexists.
Qed.

(** C3, as the code has it.  Among any promises running together, a
    reconciliation whose [createEntity] fails (with the conflict of a record
    created in the meantime, or otherwise) does not read the record again:
    its calls are the read that found nothing, the time, the failed create
    and [console.error] with that error, and nothing more.  Its promise is
    fulfilled, so the caller sees no error. *)
Theorem create_conflict_ends_the_run
    E sched (ps : list (task unit)) w rs w' evs tid name n month e error :
  ps !! tid = Some (reconcile name n month) ->
  promise_all E sched ps w = (rs, w', evs) ->
  EvCreateEntity e (inl error) ∈ events_of tid evs ->
  rs !! tid = Some (inr tt)
  /\ exists now,
       events_of tid evs =
       [EvGetEntity "DeploymentType" (name +:+ "-" +:+ month)
          (inl (StoreError NotFound));
        EvNewDate now;
        EvCreateEntity e (inl error);
        EvConsoleError "Error processing deployment" name error].
Proof.
  intros Hp Hall Hin.
  destruct (promise_all_run_of _ _ _ _ _ _ _ _ _ Hall Hp) as (a & Ha & Hrun).
  destruct (reconcile_runs _ _ _ _ _ Hrun) as [-> Hshape].
  split; [done|]. by apply Hshape.
Qed.

End Races.

Lemma events_of_promise i (evs : list (nat * event)) :
  events_of (Some i) (map (fun te => (Some te.1, te.2)) evs) = events_of i evs.
Proof.
  induction evs as [|[j ev] evs IH]; [done|]. cbn.
  destruct (decide (j = i)) as [->|Hne].
  - rewrite !decide_True by done. cbn. by f_equal.
  - rewrite !decide_False by congruence. done.
Qed.

Lemma events_of_cons_other {T} `{EqDecision T} (tag tag' : T) ev evs :
  tag' <> tag -> events_of tag ((tag', ev) :: evs) = events_of tag evs.
Proof. intros Hne. cbn. by rewrite decide_False by done. Qed.

Lemma handler_event_not_of_promise ev (evs : list (nat * event)) :
  (None, ev) ∉ map (fun te => (Some te.1, te.2)) evs.
Proof.
  intros (te & [=] & _)%list_elem_of_fmap.
Qed.

Section Invocations.
Context (sender recipient resourceUri : string) (startOfMonthISO : string -> string).

(** C8. Whatever the store and the mail client do, and in whatever order
    the promises advance: once the metrics endpoint has answered with a
    list of deployments that all carry a name, the calls of each
    deployment's promise are a whole run of its reconciliation, ended
    without a rejection, and the response is 200 with body "Success". *)
Theorem failures_stay_within_their_deployment
    E sched w resp w' evs url auth value0 others :
  httpTrigger sender recipient resourceUri startOfMonthISO E sched w
    = (resp, w', evs) ->
  (None, EvAxiosGet url auth (inr (value0 :: others))) ∈ evs ->
  Forall (fun d => metadatavalues d <> []) (timeseries value0) ->
  resp = {| status := 200; body := "Success" |}
  /\ exists month, forall i d,
       timeseries value0 !! i = Some d ->
       exists deploymentName,
         head (metadatavalues d) = Some deploymentName
         /\ run_of (evaluateTokenUsageForAlert sender recipient deploymentName
                      (foldl Z.add 0 (data d)) month)
                   (events_of (Some i) evs) (inr tt).
Proof.
  intros H Hin Hnames.
  unfold httpTrigger, httpTrigger_promises, getCurrentMonthTimespan,
    getCurrentMonthString in H.
  cbn [exec bind_prog bind try_catch ret throw getToken axios_get newDateISO] in H.
  destruct (token_result E (tick w)) as [err|token] eqn:Htoken;
    cbn [exec bind_prog bind try_catch ret throw getToken axios_get newDateISO
         httpTrigger_response] in H.
  { simplify_eq. cbn in Hin. elems Hin; done. }
  destruct (metrics_result E _) as [err|[|m ms]] eqn:Hmetrics;
    cbn [exec bind_prog bind try_catch ret throw getToken axios_get newDateISO
         httpTrigger_response] in H.
  { simplify_eq. cbn in Hin. elems Hin; done. }
  { simplify_eq. cbn in Hin. elems Hin; done. }
  match type of H with
  | context [promise_all E sched (map (process_deployment _ _ ?mo) _) ?wo] =>
      set (month := mo) in H; set (w1 := wo) in H
  end.
  destruct (promise_all E sched _ w1) as [[rs w2] evs2] eqn:Hall.
  destruct (exec E (httpTrigger_response (first_rejection rs)) w2)
    as [[resp3 w3] evs3] eqn:Hresp.
  injection H as <- <- <-.
  assert (forall p evs' a,
            p ∈ map (process_deployment sender recipient month) (timeseries value0) ->
            run_of p evs' a -> a = inr tt) as Hfulfilled.
  { intros p evs' a (d & -> & Hd)%list_elem_of_fmap Hrun.
    rewrite Forall_forall in Hnames. specialize (Hnames d Hd).
    unfold process_deployment in Hrun.
    destruct (metadatavalues d) as [|deploymentName ?]; [done|].
    by apply reconcile_runs in Hrun as [-> _]. }
  assert (m = value0) as ->.
  { cbn [map app] in Hin. elems Hin; simplify_eq; try done.
    apply elem_of_app in Hin as [Hin | Hin].
    - by apply handler_event_not_of_promise in Hin.
    - destruct (first_rejection rs); cbn in Hresp; simplify_eq;
        cbn in Hin; elems Hin; done. }
  rewrite (promise_all_fulfilled _ _ _ _ _ _ _ Hall Hfulfilled) in Hresp.
  cbn in Hresp. injection Hresp as <- <- <-.
  split; [done|]. exists month. intros i d Hd.
  rewrite Forall_forall in Hnames.
  pose proof (Hnames d (list_elem_of_lookup_2 _ _ _ Hd)) as Hname.
  destruct (metadatavalues d) as [|deploymentName names] eqn:Hmeta; [done|].
  exists deploymentName. split; [done|].
  destruct (promise_all_run_of _ _ _ _ _ _ _ i
              (process_deployment sender recipient month d) Hall)
    as (a & Ha & Hrun).
  { by rewrite list_lookup_fmap, Hd. }
  rewrite !events_of_cons_other by done.
  rewrite events_of_app, events_of_promise, events_of_other, app_nil_r by done.
  unfold process_deployment in Hrun. rewrite Hmeta in Hrun.
  by destruct (reconcile_runs _ _ _ _ _ _ _ Hrun) as [<- _].
Qed.

End Invocations.


(** * The properties on sample runs *)

(** The policy on an absent record above the threshold, on a record at the
    threshold, and on a record whose flag is set. *)
Lemma shouldSendAlert_iff_witness :
  shouldSendAlert None 1500 = true
  /\ shouldSendAlert (Some (mkEntity "DeploymentType" "gpt4dev-2024-10" 500 false "")) 1000
     = false
  /\ shouldSendAlert (Some (mkEntity "DeploymentType" "gpt4dev-2024-10" 500 true "")) 5000
     = false.
Proof.
  split_and!.
  - apply (proj1 (shouldSendAlert_iff None 1500)). split; [done | by left].
  - apply (proj1 (proj2 (shouldSendAlert_iff _ 1000))). done.
  - by apply (proj2 (proj2 (shouldSendAlert_iff _ 5000)) _ eq_refl).
Defined.

(** Scenario C: stored 500, new usage 400, no alert due. *)
Lemma no_write_when_nothing_to_record_witness :
  let r := sample_run calm 400 (world_with 500 false) in
  store_writes r.2 = [] /\ table r.1.2 = table (world_with 500 false).
Proof.
  intros r.
  apply (no_write_when_nothing_to_record "alerts@example.com" "ops@example.com"
           calm (world_with 500 false) "gpt4dev" 400 "2024-10"
           (mkEntity "DeploymentType" "gpt4dev-2024-10" 500 false
              "2024-10-01T00:00:00.000Z")
           r.1.1 r.1.2 r.2).
  - vm_compute; reflexivity.
  - reflexivity.
  - simpl; lia.
  - vm_compute; reflexivity.
Defined.

(** Scenario A on the empty table. *)
Lemma scenario_A_first_crossing_witness :
  let r := sample_run calm 1500 empty_world in
  THRESHOLD = 1000
  /\ (exists e, EvCreateEntity e (inr tt) ∈ r.2
        /\ entity_key e = ("DeploymentType", "gpt4dev-2024-10")
        /\ SumToken e = 1500 /\ ActionDone e = false)
  /\ mail_results r.2 = [inr "Succeeded"]
  /\ (exists e', lookup_entity (table r.1.2) "DeploymentType" "gpt4dev-2024-10"
                 = Some e'
        /\ SumToken e' = 1500 /\ ActionDone e' = true).
Proof.
  intros r.
  apply (scenario_A_first_crossing "alerts@example.com" "ops@example.com"
           calm empty_world "gpt4dev" "2024-10" r.1.1 r.1.2 r.2).
  - intros t; reflexivity.
  - intros t; reflexivity.
  - vm_compute; reflexivity.
  - vm_compute; reflexivity.
Defined.

(** Stored 500, new usage 1500, the mail delivered: 1500 is stored. *)
Lemma usage_recorded_unless_notifier_fails_witness :
  let r := sample_run calm 1500 (world_with 500 false) in
  exists e', lookup_entity (table r.1.2) "DeploymentType" "gpt4dev-2024-10" = Some e'
    /\ SumToken e' = 1500.
Proof.
  intros r.
  apply (proj1 (usage_recorded_unless_notifier_fails
                  "alerts@example.com" "ops@example.com"
                  calm (world_with 500 false) "gpt4dev" 1500 "2024-10"
                  (mkEntity "DeploymentType" "gpt4dev-2024-10" 500 false
                     "2024-10-01T00:00:00.000Z")
                  r.1.1 r.1.2 r.2 ltac:(vm_compute; reflexivity)
                  ltac:(vm_compute; reflexivity))).
  - intros t; reflexivity.
  - simpl; lia.
  - right. vm_compute; reflexivity.
Defined.

(** Scenario B: stored 1500 with the flag set, new usage 1800. *)
Lemma usage_is_max_when_run_completes_witness :
  let r := sample_run calm 1800 (world_with 1500 true) in
  exists e', lookup_entity (table r.1.2) "DeploymentType" "gpt4dev-2024-10" = Some e'
    /\ 1500 <= SumToken e'
    /\ (logged_errors r.2 = [] -> SumToken e' = Z.max 1500 1800).
Proof.
  intros r.
  apply (usage_is_max_when_run_completes "alerts@example.com" "ops@example.com"
           calm (world_with 1500 true) "gpt4dev" 1800 "2024-10"
           (mkEntity "DeploymentType" "gpt4dev-2024-10" 1500 true
              "2024-10-01T00:00:00.000Z")
           r.1.1 r.1.2 r.2).
  - vm_compute; reflexivity.
  - vm_compute; reflexivity.
Defined.

(** Scenario E: the mail client reports "Failed". *)
Lemma flag_set_only_after_successful_mail_witness :
  let r := sample_run mail_down 1500 (world_with 500 false) in
  sample_flag r.1.2 = Some false
  /\ (exists error, logged_errors r.2 = [("gpt4dev", error)])
  /\ (forall E2 a2 w2 evs2,
        store_fault E2 (tick r.1.2) = false ->
        exec E2 (evaluateTokenUsageForAlert "alerts@example.com" "ops@example.com"
                   "gpt4dev" 1500 "2024-10") r.1.2 = (a2, w2, evs2) ->
        mail_results evs2 <> []).
Proof.
  intros r.
  apply (proj2 (proj2 (flag_set_only_after_successful_mail
                         "alerts@example.com" "ops@example.com"
                         mail_down (world_with 500 false) "gpt4dev" 1500 "2024-10"
                         r.1.1 r.1.2 r.2 ltac:(vm_compute; reflexivity)))
           (inr "Failed")).
  - apply list_elem_of_lookup_2 with 0%nat. vm_compute; reflexivity.
  - discriminate.
Defined.

(** Scenario A run twice. *)
Lemma second_run_sends_nothing_witness :
  let r1 := sample_run calm 1500 empty_world in
  let r2 := sample_run calm 1500 r1.1.2 in
  mail_results r2.2 = [] /\ sample_flag r2.1.2 = Some true.
Proof.
  intros r1 r2.
  apply (second_run_sends_nothing "alerts@example.com" "ops@example.com"
           calm calm empty_world "gpt4dev" 1500 "2024-10"
           r1.1.1 r1.1.2 r1.2 r2.1.1 r2.1.2 r2.2).
  - vm_compute; reflexivity.
  - apply list_elem_of_lookup_2 with 0%nat. vm_compute; reflexivity.
  - vm_compute; reflexivity.
  - vm_compute; reflexivity.
Defined.

(** A record with the flag set, and a usage that would not alert. *)
Lemma flag_stays_set_without_overlap_witness :
  let r := sample_run calm 900 (world_with 500 true) in
  (exists e', lookup_entity (table r.1.2) "DeploymentType" "gpt4dev-2024-10" = Some e'
     /\ ActionDone e' = true)
  /\ (forall e'', e'' ∈ store_writes r.2 -> ActionDone e'' = true)
  /\ (forall k, k <> ("DeploymentType", "gpt4dev-2024-10") ->
        table r.1.2 !! k = table (world_with 500 true) !! k).
Proof.
  intros r.
  apply (flag_stays_set_without_overlap "alerts@example.com" "ops@example.com"
           calm (world_with 500 true) "gpt4dev" 900 "2024-10"
           (mkEntity "DeploymentType" "gpt4dev-2024-10" 500 true
              "2024-10-01T00:00:00.000Z")
           r.1.1 r.1.2 r.2).
  - vm_compute; reflexivity.
  - reflexivity.
  - vm_compute; reflexivity.
Defined.

(** Scenario D: two reconciliations race to create the record. *)
Lemma create_conflict_ends_the_run_witness :
  let r := promise_all calm [0; 1; 0; 0; 1; 1]%nat (pair_of_runs 1500 1500) empty_world in
  r.1.1 !! 1%nat = Some (inr tt)
  /\ exists now,
       events_of 1%nat r.2 =
       [EvGetEntity "DeploymentType" "gpt4dev-2024-10" (inl (StoreError NotFound));
        EvNewDate now;
        EvCreateEntity
          (mkEntity "DeploymentType" "gpt4dev-2024-10" 1500 false
             "2024-10-28T10:00:00.000Z")
          (inl (StoreError AlreadyExists));
        EvConsoleError "Error processing deployment" "gpt4dev"
          (StoreError AlreadyExists)].
Proof.
  intros r.
  apply (create_conflict_ends_the_run "alerts@example.com" "ops@example.com"
           calm [0; 1; 0; 0; 1; 1]%nat (pair_of_runs 1500 1500) empty_world
           r.1.1 r.1.2 r.2 1%nat "gpt4dev" 1500 "2024-10").
  - reflexivity.
  - vm_compute; reflexivity.
  - apply list_elem_of_lookup_2 with 2%nat. vm_compute; reflexivity.
Defined.

(** One invocation with two deployments while every store call fails. *)
Lemma failures_stay_within_their_deployment_witness :
  let r := sample_trigger store_down [0; 1; 1; 0]%nat empty_world in
  r.1.1 = {| status := 200; body := "Success" |}
  /\ exists month, forall i d,
       timeseries sample_metric !! i = Some d ->
       exists deploymentName,
         head (metadatavalues d) = Some deploymentName
         /\ run_of (evaluateTokenUsageForAlert "alerts@example.com" "ops@example.com"
                      deploymentName (foldl Z.add 0 (data d)) month)
                   (events_of (Some i) r.2) (inr tt).
Proof.
  intros r.
  eapply (failures_stay_within_their_deployment
            "alerts@example.com" "ops@example.com" "/subscriptions/s1"
            (fun _ => "2024-10-01T00:00:00.000Z")
            store_down [0; 1; 1; 0]%nat empty_world r.1.1 r.1.2 r.2).
  - vm_compute; reflexivity.
  - apply list_elem_of_lookup_2 with 2%nat. reflexivity.
  - repeat constructor; discriminate.
Defined.

(** * Where the code departs from the specification *)

(** C2 as stated fails: the stored usage is 500, the new usage is 1500, the
    mail client reports "Failed", and the stored usage is still 500 after
    the run. *)
Lemma usage_not_recorded_when_mail_fails :
  let r := sample_run mail_down 1500 (world_with 500 false) in
  sample_usage (world_with 500 false) = Some 500
  /\ mail_results r.2 = [inr "Failed"]
  /\ sample_usage r.1.2 = Some 500
  /\ sample_usage r.1.2 <> Some 1500.
Proof. vm_compute. split_and!; [reflexivity .. | discriminate]. Qed.

(** C5 as stated fails: from a stored usage of 1200 and a new usage of
    2000, a run whose mail fails leaves 1200, not the larger of the two. *)
Lemma usage_not_max_when_mail_fails :
  let r := sample_run mail_down 2000 (world_with 1200 false) in
  sample_usage (world_with 1200 false) = Some 1200
  /\ sample_usage r.1.2 = Some 1200
  /\ sample_usage r.1.2 <> Some (Z.max 1200 2000).
Proof. vm_compute. split_and!; [reflexivity .. | discriminate]. Qed.

(** C3 as stated fails: two reconciliations of a record that does not
    exist yet both read "not found"; the first creates the record, the
    create of the second is refused with [AlreadyExists].  The second reads
    nothing again: it logs the error and ends, and the first goes on to
    mail and to set the flag. *)
Lemma create_race_is_logged_not_reread :
  let r := promise_all calm [0; 1; 0; 0; 1; 1]%nat (pair_of_runs 1500 1500) empty_world in
  events_of 1%nat r.2 =
    [EvGetEntity "DeploymentType" "gpt4dev-2024-10" (inl (StoreError NotFound));
     EvNewDate "2024-10-28T10:00:00.000Z";
     EvCreateEntity
       (mkEntity "DeploymentType" "gpt4dev-2024-10" 1500 false
          "2024-10-28T10:00:00.000Z")
       (inl (StoreError AlreadyExists));
     EvConsoleError "Error processing deployment" "gpt4dev"
       (StoreError AlreadyExists)]
  /\ logged_errors (events_of 1%nat r.2) = [("gpt4dev", StoreError AlreadyExists)]
  /\ mail_results (events_of 1%nat r.2) = []
  /\ mail_results (events_of 0%nat r.2) = [inr "Succeeded"].
Proof. vm_compute. split_and!; reflexivity. Qed.

(** C7 as stated fails: the record is (500, flag unset).  One
    reconciliation, with usage 1500, reads it and is mailing; meanwhile a
    second one, with usage 900, reads the same record.  The first then
    stores the flag and the usage 1500; the second, which has no alert to
    send, writes back what it read with its own usage, and the record is
    (900, flag unset). *)
Lemma overlapping_run_resets_flag :
  let ps := pair_of_runs 900 1500 in
  let before := run_sched calm [1; 1; 1; 0; 0; 1; 1; 1; 1]%nat ps (world_with 500 false) in
  let after := run_sched calm [1; 1; 1; 0; 0; 1; 1; 1; 1; 0; 0]%nat ps (world_with 500 false) in
  sample_flag before.1.2 = Some true
  /\ last after.2 =
     Some (0%nat,
           EvUpdateEntity
             (mkEntity "DeploymentType" "gpt4dev-2024-10" 900 false
                "2024-10-28T10:00:00.000Z")
             (inr tt))
  /\ sample_flag after.1.2 = Some false.
Proof. vm_compute. split_and!; reflexivity. Qed.

(** * More of the code *)

(** ** Any run of a reconciliation *)

Ltac red_any H :=
  repeat progress
    (cbn [run_of bind_prog bind try_catch ret throw getEntity createEntity updateEntity
          beginSend newDateISO console_log console_error statusCode] in H).

Ltac split_any H :=
  lazymatch type of H with
  | exists _ : _ + _, _ => destruct H as ([?|?] & ? & -> & H)
  | exists _ : string, _ => destruct H as (? & ? & -> & H)
  | exists _ : list event, _ => destruct H as (? & -> & H)
  | _ /\ _ => destruct H as [-> ->]
  | context [decide ?P] => destruct (decide P)
  | context [if ?b then _ else _] => destruct b eqn:?
  end.

Ltac any_run H :=
  unfold evaluateTokenUsageForAlert, sendMail in H;
  repeat (red_any H; split_any H);
  repeat match goal with u : unit |- _ => destruct u end;
  try match goal with
      | Hx : (_ >? SumToken _) = true |- _ =>
          cbn in Hx; rewrite Z_gtb_irrefl in Hx; discriminate Hx
      end.

(** Going through a list of events that is known, position by position. *)
Ltac at_each i H :=
  repeat (destruct i as [|i]; cbn in H; simplify_eq).

Ltac find_failure i :=
  exists i; eexists; split; [reflexivity|];
  cbn; repeat case_decide; congruence.

Section AnyRun.
Context (sender recipient : string).
Abbreviation reconcile := (evaluateTokenUsageForAlert sender recipient).

(** X1. In any run of a reconciliation, alone or among others, its promise
    is fulfilled.  A call that fails (a read with an error other than 404,
    a create, an update, a mail that throws or whose status is not
    "Succeeded") is followed by [console.error] with the deployment name
    and that error, and by nothing else; and nothing is logged through
    [console.error] that does not come from such a call. *)
Theorem reconciliation_is_fail_stop name n month evs a :
  run_of (reconcile name n month) evs a ->
  a = inr tt
  /\ (forall i ev error,
        evs !! i = Some ev -> failure_of ev = Some error ->
        drop (S i) evs = [EvConsoleError "Error processing deployment" name error])
  /\ (forall d error,
        (d, error) ∈ logged_errors evs ->
        d = name /\ exists i ev, evs !! i = Some ev /\ failure_of ev = Some error).
Proof.
  intros H. any_run H.
  all: split_and!; [ done | intros i ev error Hi Hf | intros d error Hin ].
  all: try (at_each i Hi; cbn in Hf; repeat case_decide; simplify_eq; done).
  all: cbn in Hin; elems Hin; simplify_eq.
  all: split; [done|].
  all: first [ find_failure 0%nat | find_failure 1%nat | find_failure 2%nat
             | find_failure 3%nat | find_failure 4%nat | find_failure 5%nat
             | find_failure 6%nat | find_failure 7%nat ].
Qed.

(** X2. In any run of a reconciliation there is exactly one read, of the
    record of the deployment and month, at most one mail, and at most two
    writes; and a mail is sent only for a usage above [THRESHOLD]. *)
Theorem call_budget name n month evs a :
  run_of (reconcile name n month) evs a ->
  store_reads evs = [("DeploymentType", name +:+ "-" +:+ month)]
  /\ (length (mail_results evs) <= 1)%nat
  /\ (length (store_writes evs) <= 2)%nat
  /\ (mail_results evs <> [] -> THRESHOLD < n).
Proof.
  intros H. any_run H.
  all: split_and!; [ done | cbn; lia | cbn; lia | intros Hmail ].
  all: try done.
  all: match goal with
       | Hx : shouldSendAlert _ _ = true |- _ =>
           unfold shouldSendAlert in Hx;
           apply andb_true_iff in Hx as [_ Hx];
           by rewrite Z.gtb_ltb, Z.ltb_lt in Hx
       end.
Qed.

(** X3. In any run of a reconciliation, every call to [createEntity] or
    [updateEntity] comes right after a reading of the time, and the entity
    it writes carries that time as [LastUpdated]. *)
Theorem writes_are_stamped name n month evs a :
  run_of (reconcile name n month) evs a ->
  forall i ev e,
    evs !! i = Some ev -> write_of ev = Some e ->
    exists j, i = S j /\ evs !! j = Some (EvNewDate (LastUpdated e)).
Proof.
  intros H i ev e Hi Hw. any_run H.
  all: at_each i Hi; cbn in Hw; simplify_eq.
  all: by eexists.
Qed.


(** X4. In any run of a reconciliation whose read answers an entity with
    [ActionDone = true], no mail is sent and every entity written carries
    [ActionDone = true], whatever happens to the table after the read. *)
Theorem no_mail_when_flag_was_read_set name n month evs a pk rk e :
  run_of (reconcile name n month) evs a ->
  head evs = Some (EvGetEntity pk rk (inr e)) ->
  ActionDone e = true ->
  mail_results evs = []
  /\ (forall e', e' ∈ store_writes evs -> ActionDone e' = true).
Proof.
  intros H Hhead Hflag. any_run H; cbn in Hhead; simplify_eq.
  all: try match goal with
       | Hx : shouldSendAlert _ _ = true |- _ =>
           unfold shouldSendAlert in Hx; rewrite Hflag in Hx; discriminate Hx
       end.
  all: split; [done|]; intros e' He'; cbn in He'; elems He'; by subst.
Qed.

End AnyRun.

(** ** A reconciliation alone, with working services or twice *)

Section Alone.
Context (sender recipient : string).
Abbreviation reconcile := (evaluateTokenUsageForAlert sender recipient).

(** X5. With a working store and a mail client that answers "Succeeded", a
    run alone on an existing record logs no error, mails exactly when the
    policy says so, and leaves the record with the larger of the two
    usages and with the flag set if it was set or the new usage is above
    the threshold.  It writes once for the flag and once for the usage,
    and a run that writes nothing leaves [LastUpdated] as it was. *)
Theorem settled_record_existing E w name n month e a w' evs :
  (forall t, store_fault E t = false) ->
  (forall t, mail_result E t = inr "Succeeded") ->
  lookup_entity (table w) "DeploymentType" (name +:+ "-" +:+ month) = Some e ->
  exec E (reconcile name n month) w = (a, w', evs) ->
  logged_errors evs = []
  /\ mail_results evs = (if shouldSendAlert (Some e) n then [inr "Succeeded"] else [])
  /\ length (store_writes evs) =
       ((if shouldSendAlert (Some e) n then 1 else 0)
        + (if n >? SumToken e then 1 else 0))%nat
  /\ exists e', lookup_entity (table w') "DeploymentType" (name +:+ "-" +:+ month)
                 = Some e'
       /\ SumToken e' = Z.max (SumToken e) n
       /\ ActionDone e' = ActionDone e || (n >? THRESHOLD)
       /\ (store_writes evs = [] -> LastUpdated e' = LastUpdated e).
Proof.
  intros Hstore Hmail ([[s b] l] & Hl & ->)%lookup_entity_Some H.
  unfold shouldSendAlert. cbn [entity_of ActionDone SumToken LastUpdated fst snd].
  sym_exec H.
  all: leaf.
  all: repeat match goal with
       | Hx : ?a < ?b |- context [?b >? ?a] =>
           replace (b >? a) with true by (symmetry; rewrite Z.gtb_ltb; by apply Z.ltb_lt)
       | Hx : ?b <= ?a |- context [?b >? ?a] =>
           replace (b >? a) with false by (symmetry; rewrite Z.gtb_ltb; by apply Z.ltb_ge)
       end.
  all: cbn.
  all: split_and!; try done.
  all: eexists; split_and!; try reflexivity; cbn; try lia; try done.
Qed.

(** X6. With a working store and a mail client that answers "Succeeded", a
    run alone on a missing record creates it with the new usage; above the
    threshold it mails once and sets the flag with a second write, at or
    below the threshold it sends nothing and the flag stays unset. *)
Theorem settled_record_absent E w name n month a w' evs :
  (forall t, store_fault E t = false) ->
  (forall t, mail_result E t = inr "Succeeded") ->
  lookup_entity (table w) "DeploymentType" (name +:+ "-" +:+ month) = None ->
  exec E (reconcile name n month) w = (a, w', evs) ->
  logged_errors evs = []
  /\ mail_results evs = (if n >? THRESHOLD then [inr "Succeeded"] else [])
  /\ length (store_writes evs) = (if n >? THRESHOLD then 2 else 1)%nat
  /\ exists e', lookup_entity (table w') "DeploymentType" (name +:+ "-" +:+ month)
                 = Some e'
       /\ SumToken e' = n
       /\ ActionDone e' = (n >? THRESHOLD).
Proof.
  intros Hstore Hmail Hl%lookup_entity_None H.
  sym_exec H.
  all: leaf.
  all: try lia.
  all: repeat match goal with
       | Hx : ?a < ?b |- context [?b >? ?a] =>
           replace (b >? a) with true by (symmetry; rewrite Z.gtb_ltb; by apply Z.ltb_lt)
       | Hx : ?b <= ?a |- context [?b >? ?a] =>
           replace (b >? a) with false by (symmetry; rewrite Z.gtb_ltb; by apply Z.ltb_ge)
       end.
  all: cbn.
  all: split_and!; try done.
  all: by eexists.
Qed.

(** After a run that logged no error the record holds at least the usage
    of the run, and its flag is set if that usage is above the threshold. *)
Lemma run_without_error_settles E w name n month a w' evs :
  exec E (reconcile name n month) w = (a, w', evs) ->
  logged_errors evs = [] ->
  exists s b l,
    table w' !! ("DeploymentType", name +:+ "-" +:+ month) = Some (s, b, l)
    /\ n <= s /\ (THRESHOLD < n -> b = true).
Proof.
  intros H Hlog.
  sym_exec H; leaf; try done.
  all: do 3 eexists; split_and!; [ reflexivity | lia | intros; first [done | lia] ].
Qed.

(** A run on a record that already holds the usage and, where due, the
    flag: nothing is sent and nothing is written. *)
Lemma run_with_nothing_due E w name n month s b l a w' evs :
  table w !! ("DeploymentType", name +:+ "-" +:+ month) = Some (s, b, l) ->
  n <= s -> (THRESHOLD < n -> b = true) ->
  exec E (reconcile name n month) w = (a, w', evs) ->
  mail_results evs = [] /\ store_writes evs = [] /\ table w' = table w.
Proof.
  intros Hl Hn Hb H.
  sym_exec H; leaf; try done; try lia.
  all: by specialize (Hb ltac:(lia)).
Qed.

(** X7. After a run alone that logged no error, from any table, a second
    run with the same usage sends no mail, writes nothing and leaves the
    table as it is, whatever the services do during it. *)
Theorem completed_run_is_idempotent E1 E2 w name n month a1 w1 evs1 a2 w2 evs2 :
  exec E1 (reconcile name n month) w = (a1, w1, evs1) ->
  logged_errors evs1 = [] ->
  exec E2 (reconcile name n month) w1 = (a2, w2, evs2) ->
  mail_results evs2 = [] /\ store_writes evs2 = [] /\ table w2 = table w1.
Proof.
  intros H1 Hlog H2.
  destruct (run_without_error_settles _ _ _ _ _ _ _ _ H1 Hlog)
    as (s & b & l & Hl & Hn & Hb).
  by eapply run_with_nothing_due.
Qed.

(** X8. A run alone writes only entities with the key of its deployment and
    month, and leaves every other record of the table as it was, whatever
    the services do. *)
Theorem run_touches_only_its_record E w name n month a w' evs :
  exec E (reconcile name n month) w = (a, w', evs) ->
  (forall e, e ∈ store_writes evs ->
     entity_key e = ("DeploymentType", name +:+ "-" +:+ month))
  /\ (forall k, k <> ("DeploymentType", name +:+ "-" +:+ month) ->
        table w' !! k = table w !! k).
Proof.
  intros H. sym_exec H; leaf.
  all: split; [ intros wr Hwr; elems Hwr; by subst | intros k Hk ].
  all: by rewrite ?lookup_insert_ne by done.
Qed.
End Alone.

(** ** The records an invocation can touch *)

Lemma store_get_key E w pk rk e :
  store_get E w pk rk = inr e -> entity_key e = (pk, rk).
Proof.
  unfold store_get, lookup_entity.
  destruct (store_fault E (tick w)); [done|].
  destruct (table w !! (pk, rk)); cbn; [|done]. by intros [= <-].
Qed.

Lemma step_confined {A} E K (p : prog A) w ev p' w' :
  confined K p -> step E p w = Some (ev, p', w') ->
  confined K p' /\ forall k', ~ K k' -> table w' !! k' = table w !! k'.
Proof.
  destruct p as [a0|pk rk c|e c|e c|m c|c|s oe c|s d er c|sc c|u au c];
    cbn; try done.
  - intros Hc [= <- <- <-]. split; [|done]. apply Hc. intros e. apply store_get_key.
  - intros [Hk Hc]. unfold store_create.
    repeat case_match; intros [= <- <- <-]; simplify_eq; cbn; split; try done.
    intros k' Hne. rewrite lookup_insert_ne; [done|]. by intros <-.
  - intros [Hk Hc]. unfold store_update.
    repeat case_match; intros [= <- <- <-]; simplify_eq; cbn; split; try done.
    intros k' Hne. rewrite lookup_insert_ne; [done|]. by intros <-.
  - intros Hc [= <- <- <-]. by split.
  - intros Hc [= <- <- <-]. by split.
  - intros Hc [= <- <- <-]. by split.
  - intros Hc [= <- <- <-]. by split.
  - intros Hc [= <- <- <-]. by split.
  - intros Hc [= <- <- <-]. by split.
Qed.

(** [step] and [exec] agree: a run alone is its steps one after another. *)
Lemma exec_step {A} E (p : prog A) w ev p' w1 :
  step E p w = Some (ev, p', w1) ->
  exec E p w = (let '(a, w', evs) := exec E p' w1 in (a, w', ev :: evs)).
Proof.
  destruct p as [a0|pk rk c|e c|e c|m c|c|s oe c|s d er c|sc c|u au c];
    cbn; try done.
  3: destruct (store_update E w e) as [r t].
  2: destruct (store_create E w e) as [r t].
  all: by intros [= <- <- <-].
Qed.

Lemma step_None {A} E (p : prog A) w :
  step E p w = None -> exists a, p = Ret a.
Proof. destruct p; cbn; try done; [by eexists | by repeat case_match ..]. Qed.

Lemma exec_confined {A} E K (p : prog A) : forall w a w' evs,
  confined K p -> exec E p w = (a, w', evs) ->
  forall k', ~ K k' -> table w' !! k' = table w !! k'.
Proof.
  induction p as [a0|pk rk c IH|e c IH|e c IH|m c IH|c IH|s e c IH|s d e c IH
                 |sc c IH|u au c IH]; intros w a w' evs Hc Hexec k' Hne.
  { cbn in Hexec. by simplify_eq. }
  all: match type of Hexec with
       | exec ?E0 ?p ?w0 = _ =>
           destruct (step E0 p w0) as [[[ev p'] w1]|] eqn:Hstep;
             [| cbn in Hstep; by repeat case_match ]
       end.
  all: rewrite (exec_step _ _ _ _ _ _ Hstep) in Hexec.
  all: destruct (step_confined _ _ _ _ _ _ _ Hc Hstep) as [Hc' Hframe].
  all: destruct (exec E p' w1) as [[a1 w2] evs1] eqn:Hrest; simplify_eq.
  all: rewrite <- (Hframe k' Hne).
  all: cbn in Hstep; repeat case_match; simplify_eq; eapply IH; eauto.
Qed.

Lemma confined_mono {A} (K K' : string * string -> Prop) (p : prog A) :
  (forall k, K k -> K' k) -> confined K p -> confined K' p.
Proof.
  intros HK. induction p; cbn; naive_solver.
Qed.

Ltac confine :=
  repeat
    (cbn [confined bind_prog bind try_catch ret throw getEntity createEntity
          updateEntity beginSend newDateISO console_log console_error];
     match goal with
     | |- True => exact I
     | |- entity_key _ = _ =>
         first [ reflexivity
               | match goal with Hx : forall e, inr ?t = inr e -> _ |- _ =>
                   exact (Hx t eq_refl) end ]
     | |- _ /\ _ => split
     | |- forall r : _ + _, _ => intros [?|?]
     | |- forall _, _ => intros ?
     | |- context [decide ?P] => destruct (decide P)
     | |- context [if ?b then _ else _] => destruct b eqn:?
     end).

Lemma reconcile_confined sender recipient name n month :
  confined (fun k => k = ("DeploymentType", name +:+ "-" +:+ month))
    (evaluateTokenUsageForAlert sender recipient name n month).
Proof.
  unfold evaluateTokenUsageForAlert, sendMail. confine.
Qed.

Lemma pool_step_confined {A} E tid K (ps : list (prog A)) w ps' w' evs :
  Forall (confined K) ps ->
  pool_step E tid ps w = (ps', w', evs) ->
  Forall (confined K) ps'
  /\ forall k', ~ K k' -> table w' !! k' = table w !! k'.
Proof.
  intros HK. unfold pool_step.
  destruct (ps !! tid) as [p|] eqn:Hp; [|by intros [= <- <- <-]].
  destruct (step E p w) as [[[ev p'] w1]|] eqn:Hstep; [|by intros [= <- <- <-]].
  intros [= <- <- <-].
  pose proof (Forall_lookup_1 _ _ _ _ HK Hp) as Hc.
  destruct (step_confined _ _ _ _ _ _ _ Hc Hstep) as [Hc' Hframe].
  split; [|done]. by apply Forall_insert.
Qed.

Lemma run_sched_confined {A} E sched K :
  forall (ps : list (prog A)) w ps' w' evs,
  Forall (confined K) ps ->
  run_sched E sched ps w = (ps', w', evs) ->
  Forall (confined K) ps'
  /\ forall k', ~ K k' -> table w' !! k' = table w !! k'.
Proof.
  induction sched as [|t sched IH]; intros ps w ps' w' evs HK; cbn.
  - by intros [= <- <- <-].
  - destruct (pool_step E t ps w) as [[ps1 w1] evs1] eqn:Hstep.
    destruct (run_sched E sched ps1 w1) as [[ps2 w2] evs2] eqn:Hrest.
    intros [= <- <- <-].
    destruct (pool_step_confined _ _ _ _ _ _ _ _ HK Hstep) as [HK1 Hf1].
    destruct (IH _ _ _ _ _ HK1 Hrest) as [HK2 Hf2].
    split; [done|]. intros k' Hnot. by rewrite Hf2, Hf1.
Qed.

Lemma settle_confined {A} E K :
  forall (ps : list (prog A)) i w rs w' evs,
  Forall (confined K) ps ->
  settle E i ps w = (rs, w', evs) ->
  forall k', ~ K k' -> table w' !! k' = table w !! k'.
Proof.
  intros ps i w rs w' evs HK. revert i w rs w' evs.
  induction HK as [|p ps Hc HK IH]; intros i w rs w' evs; cbn.
  - by intros [= <- <- <-].
  - destruct (exec E p w) as [[a0 w1] evs1] eqn:Hexec.
    destruct (settle E (S i) ps w1) as [[rs2 w2] evs2] eqn:Hrest.
    intros [= <- <- <-] k' Hnot.
    rewrite (IH _ _ _ _ _ Hrest k' Hnot).
    by eapply exec_confined.
Qed.

Lemma promise_all_confined {A} E sched K (ps : list (prog A)) w rs w' evs :
  Forall (confined K) ps ->
  promise_all E sched ps w = (rs, w', evs) ->
  forall k', ~ K k' -> table w' !! k' = table w !! k'.
Proof.
  intros HK. unfold promise_all.
  destruct (run_sched E sched ps w) as [[ps1 w1] evs1] eqn:Hsched.
  destruct (settle E 0 ps1 w1) as [[rs2 w2] evs2] eqn:Hsettle.
  intros [= <- <- <-] k' Hnot.
  destruct (run_sched_confined _ _ _ _ _ _ _ _ HK Hsched) as [HK1 Hf1].
  rewrite (settle_confined _ _ _ _ _ _ _ _ HK1 Hsettle k' Hnot). by apply Hf1.
Qed.

Lemma process_deployment_confined sender recipient month ts d :
  d ∈ ts ->
  confined (fun k => k ∈ listed_keys month ts)
    (process_deployment sender recipient month d).
Proof.
  intros Hd. unfold process_deployment.
  destruct (metadatavalues d) as [|deploymentName names] eqn:Hmeta; [done|].
  eapply confined_mono; [|apply reconcile_confined].
  intros k ->. unfold listed_keys. apply list_elem_of_omap.
  exists d. split; [done|]. by rewrite Hmeta.
Qed.

(** ** One invocation *)

Lemma promise_all_outcome {A} E sched (ps : list (prog A)) w rs w' evs i a :
  promise_all E sched ps w = (rs, w', evs) ->
  rs !! i = Some a ->
  exists p, ps !! i = Some p /\ run_of p (events_of i evs) a.
Proof.
  intros Hall Ha.
  assert (length rs = length ps) as Hlen.
  { unfold promise_all in Hall.
    destruct (run_sched E sched ps w) as [[ps1 w1] evs1] eqn:Hsched.
    destruct (settle E 0 ps1 w1) as [[rs2 w2] evs2] eqn:Hsettle.
    injection Hall as <- <- <-.
    rewrite (settle_length _ _ _ _ _ _ _ Hsettle).
    by eapply run_sched_length. }
  destruct (lookup_lt_is_Some_2 ps i) as [p Hp].
  { rewrite <- Hlen. by eapply lookup_lt_Some. }
  destruct (promise_all_run_of _ _ _ _ _ _ _ _ _ Hall Hp) as (a' & Ha' & Hrun).
  exists p. split; [done|]. congruence.
Qed.

Lemma promise_all_nil {A} E sched w :
  promise_all E sched (@nil (prog A)) w = ([], w, []).
Proof.
  assert (run_sched E sched (@nil (prog A)) w = ([], w, [])) as Hsched.
  { induction sched as [|t sched IH]; [done|].
    cbn. unfold pool_step. rewrite lookup_nil. by rewrite IH. }
  unfold promise_all. by rewrite Hsched.
Qed.

Lemma first_rejection_found (rs : list (exn + unit)) error i :
  rs !! i = Some (inl error) ->
  (forall j a, rs !! j = Some a -> a = inr tt \/ a = inl error) ->
  first_rejection rs = inl error.
Proof.
  revert i. induction rs as [|a rs IH]; intros i Hi Hall; [done|].
  destruct (Hall 0%nat a eq_refl) as [-> | ->]; [|done].
  destruct i as [|i]; [done|]. cbn.
  apply (IH i); [done|]. intros j b Hb. by apply (Hall (S j)).
Qed.

Ltac red_trigger H :=
  cbn [exec bind_prog bind try_catch ret throw getToken axios_get newDateISO
       httpTrigger_response next tick table] in H.

(** The ways an invocation can go, from [H : httpTrigger ... = _]: the
    credential fails, the metrics call fails, it answers no metric, or it
    answers one and the promises are made. *)
Ltac trigger_cases H :=
  unfold httpTrigger, httpTrigger_promises, getCurrentMonthTimespan,
    getCurrentMonthString in H;
  red_trigger H;
  destruct (token_result _ _) as [?error|?token] eqn:?Htoken in H;
  red_trigger H;
  [ | destruct (metrics_result _ _) as [?error|[|?value0 ?others]] eqn:?Hmetrics in H;
      red_trigger H ].

(** Where an event of the handler itself can be in the events of an
    invocation. *)
Ltac handler_in Hin :=
  cbn [map app] in Hin;
  repeat (apply elem_of_cons in Hin as [Hin|Hin]; [simplify_eq|]);
  try (apply elem_of_nil in Hin; destruct Hin);
  try (apply elem_of_app in Hin as [Hin|Hin];
       [by apply handler_event_not_of_promise in Hin|];
       cbn [map] in Hin;
       repeat (apply elem_of_cons in Hin as [Hin|Hin]; [simplify_eq|]);
       try (apply elem_of_nil in Hin; destruct Hin)).

Ltac open_promises H :=
  match type of H with
  | context [promise_all ?E ?s ?ps ?w1] =>
      destruct (promise_all E s ps w1) as [[?rs ?w2] ?evs2] eqn:?Hall
  end;
  destruct (first_rejection _) as [?rejection|[]] eqn:?Hfirst in H;
  red_trigger H; simplify_eq.

Section OneInvocation.
Context (sender recipient resourceUri : string) (startOfMonthISO : string -> string).

(** X9. When the credential or the metrics call fails, no reconciliation is
    started and the table is untouched.  The response carries the status
    and body of the error's HTTP response when there is one with a status
    other than 0 and a body that is not empty; status 0 becomes 500, and an
    error without a response gives 500 with the error's message. *)
Theorem source_failure_is_propagated E sched w resp w' evs error :
  httpTrigger sender recipient resourceUri startOfMonthISO E sched w
    = (resp, w', evs) ->
  (exists scope, (None, EvGetToken scope (inl error)) ∈ evs)
  \/ (exists url auth, (None, EvAxiosGet url auth (inl error)) ∈ evs) ->
  (forall st d, response_of error = Some (st, d) -> st <> 0 -> d <> "" ->
     resp = {| status := st; body := d |})
  /\ (response_of error = None -> resp = {| status := 500; body := message error |})
  /\ (forall d, response_of error = Some (0, d) -> status resp = 500)
  /\ table w' = table w
  /\ (forall i, events_of (Some i) evs = []).
Proof.
  intros H Hin. trigger_cases H; [ | | | open_promises H ]; simplify_eq.
  all: destruct Hin as [(scope & Hin) | (url & auth & Hin)]; handler_in Hin.
  all: split_and!; [ intros st d Hr Hst Hd | intros Hr | intros d Hr | done | done ].
  all: cbn; rewrite Hr; repeat case_decide; done.
Qed.

(** X10. When the metrics endpoint answers with an empty [value] array, the
    response has status 500, no reconciliation is started and the table is
    untouched. *)
Theorem no_metric_is_an_error E sched w resp w' evs url auth :
  httpTrigger sender recipient resourceUri startOfMonthISO E sched w
    = (resp, w', evs) ->
  (None, EvAxiosGet url auth (inr [])) ∈ evs ->
  status resp = 500
  /\ table w' = table w
  /\ (forall i, events_of (Some i) evs = []).
Proof.
  intros H Hin. trigger_cases H; [ | | | open_promises H ]; simplify_eq.
  all: handler_in Hin.
  done.
Qed.

(** X11. When the first metric of the answer has no time series, the
    response is 200 "Success"; the invocation makes its four calls
    (credential, time, metrics, time) and nothing else, and the table is
    untouched. *)
Theorem no_deployment_no_effect E sched w resp w' evs url auth value0 others :
  httpTrigger sender recipient resourceUri startOfMonthISO E sched w
    = (resp, w', evs) ->
  (None, EvAxiosGet url auth (inr (value0 :: others))) ∈ evs ->
  timeseries value0 = [] ->
  resp = {| status := 200; body := "Success" |}
  /\ table w' = table w
  /\ length evs = 4%nat
  /\ (forall i, events_of (Some i) evs = []).
Proof.
  intros H Hin Hnone. trigger_cases H; simplify_eq; try by handler_in Hin.
  assert (value1 = value0) as ->.
  { destruct (promise_all _ _ _ _) as [[rs w2] evs2].
    destruct (exec _ _ _) as [[resp3 w3] evs3] eqn:Hresp.
    simplify_eq. handler_in Hin; [done|].
    destruct (first_rejection rs); cbn in Hresp; simplify_eq;
      cbn in Hin; elems Hin; done. }
  rewrite Hnone in H. cbn [map] in H.
  pose proof (promise_all_nil (A:=exn + unit) E sched) as Hnil.
  unfold task in H. rewrite Hnil in H.
  cbn in H. by simplify_eq.
Qed.

(** X12. When a deployment of the answer has an empty [metadatavalues], the
    response has status 500, whatever the other deployments are. *)
Theorem nameless_deployment_fails_the_invocation
    E sched w resp w' evs url auth value0 others d :
  httpTrigger sender recipient resourceUri startOfMonthISO E sched w
    = (resp, w', evs) ->
  (None, EvAxiosGet url auth (inr (value0 :: others))) ∈ evs ->
  d ∈ timeseries value0 -> metadatavalues d = [] ->
  status resp = 500.
Proof.
  intros H Hin Hd Hmeta. trigger_cases H; simplify_eq; try by handler_in Hin.
  destruct (promise_all _ _ _ _) as [[rs w2] evs2] eqn:Hall.
  destruct (exec _ _ _) as [[resp3 w3] evs3] eqn:Hresp.
  simplify_eq.
  assert (value1 = value0) as ->.
  { handler_in Hin; [done|].
    destruct (first_rejection rs); cbn in Hresp; simplify_eq;
      cbn in Hin; elems Hin; done. }
  apply list_elem_of_lookup in Hd as [i Hi].
  match type of Hall with
  | promise_all _ _ (map (process_deployment _ _ ?mo) _) _ = _ => set (month := mo) in *
  end.
  destruct (promise_all_run_of _ _ _ _ _ _ _ i
              (process_deployment sender recipient month d) Hall)
    as (a & Ha & Hrun).
  { by rewrite list_lookup_fmap, Hi. }
  unfold process_deployment in Hrun. rewrite Hmeta in Hrun.
  destruct Hrun as [_ ->].
  erewrite first_rejection_found in Hresp; [ | exact Ha | ].
  { cbn in Hresp. by simplify_eq. }
  intros j b Hb.
  destruct (promise_all_outcome _ _ _ _ _ _ _ _ _ Hall Hb) as (p & Hp & Hrun).
  rewrite list_lookup_fmap in Hp.
  destruct (timeseries value0 !! j) as [dj|]; [|done]. cbn in Hp. injection Hp as <-.
  unfold process_deployment in Hrun.
  destruct (metadatavalues dj).
  - right. by destruct Hrun as [_ ->].
  - left. by apply reconcile_runs in Hrun as [-> _].
Qed.

(** X13. The timespan asked of the metrics endpoint runs from the start of
    the month of one reading of the time to that reading, and the month of
    the record keys is the first seven characters of a later reading, taken
    after the endpoint has answered: each deployment's first call reads the
    record keyed with that later month. *)
Theorem record_month_is_read_after_the_answer
    E sched w resp w' evs url auth value0 others i d deploymentName :
  httpTrigger sender recipient resourceUri startOfMonthISO E sched w
    = (resp, w', evs) ->
  (None, EvAxiosGet url auth (inr (value0 :: others))) ∈ evs ->
  timeseries value0 !! i = Some d ->
  head (metadatavalues d) = Some deploymentName ->
  let asked := clock E (1 + tick w)%nat in
  let answered := clock E (3 + tick w)%nat in
  url = "https://management.azure.com/" +:+ resourceUri +:+
        "/providers/Microsoft.Insights/metrics?api-version=2023-10-01&metricnames=TokenTransaction&$filter=ModelDeploymentName eq '*'&interval=P1D&timespan="
        +:+ startOfMonthISO asked +:+ "/" +:+ asked
  /\ exists r,
       head (events_of (Some i) evs) =
       Some (EvGetEntity "DeploymentType"
               (deploymentName +:+ "-" +:+ String.substring 0 7 answered) r).
Proof.
  intros H Hin Hd Hname. trigger_cases H; simplify_eq; try by handler_in Hin.
  destruct (promise_all _ _ _ _) as [[rs w2] evs2] eqn:Hall.
  destruct (exec _ _ _) as [[resp3 w3] evs3] eqn:Hresp.
  simplify_eq.
  assert (evs3 = [] \/ exists error, evs3 = [EvConsoleLog "Error" (Some error)])
    as Hevs3.
  { destruct (first_rejection rs); cbn in Hresp; simplify_eq; eauto. }
  handler_in Hin; last first.
  { destruct Hevs3 as [-> | [error ->]]; cbn in Hin; elems Hin; done. }
  split; [done|].
  match type of Hall with
  | promise_all _ _ (map (process_deployment _ _ ?mo) _) _ = _ => set (month := mo) in *
  end.
  destruct (promise_all_run_of _ _ _ _ _ _ _ i
              (process_deployment sender recipient month d) Hall)
    as (a & Ha & Hrun).
  { by rewrite list_lookup_fmap, Hd. }
  unfold process_deployment in Hrun.
  destruct (metadatavalues d) as [|name names]; [done|]. cbn in Hname.
  injection Hname as ->.
  cbn [map app].
  rewrite !events_of_cons_other by done.
  rewrite events_of_app, events_of_promise, events_of_other, app_nil_r by done.
  unfold evaluateTokenUsageForAlert in Hrun.
  cbn [run_of bind_prog bind try_catch getEntity] in Hrun.
  destruct Hrun as (r & evs' & -> & _). by exists r.
Qed.

(** X14. An invocation leaves every record untouched except those keyed
    ("DeploymentType", name-month) for a deployment name of the answer and
    the month read after the answer, in whatever order the promises run and
    whatever the services do. *)
Theorem invocation_touches_only_listed_records
    E sched w resp w' evs url auth value0 others k :
  httpTrigger sender recipient resourceUri startOfMonthISO E sched w
    = (resp, w', evs) ->
  (None, EvAxiosGet url auth (inr (value0 :: others))) ∈ evs ->
  k ∉ listed_keys (String.substring 0 7 (clock E (3 + tick w)%nat)) (timeseries value0) ->
  table w' !! k = table w !! k.
Proof.
  intros H Hin Hk. trigger_cases H; simplify_eq; try by handler_in Hin.
  destruct (promise_all _ _ _ _) as [[rs w2] evs2] eqn:Hall.
  destruct (exec _ _ _) as [[resp3 w3] evs3] eqn:Hresp.
  simplify_eq.
  assert (value1 = value0) as ->.
  { handler_in Hin; [done|].
    destruct (first_rejection rs); cbn in Hresp; simplify_eq;
      cbn in Hin; elems Hin; done. }
  assert (table w' = table w2) as ->.
  { destruct (first_rejection rs); cbn in Hresp; by simplify_eq. }
  match type of Hall with
  | promise_all _ _ (map (process_deployment _ _ ?mo) _) _ = _ => set (month := mo) in *
  end.
  assert (Forall (confined (fun k0 => k0 ∈ listed_keys month (timeseries value0)))
            (map (process_deployment sender recipient month) (timeseries value0)))
    as Hconfined.
  { apply Forall_fmap, Forall_forall. intros d Hd. cbn.
    by apply process_deployment_confined. }
  exact (promise_all_confined _ _ _ _ _ _ _ _ Hconfined Hall k Hk).
Qed.

End OneInvocation.

(** ** The month of the record keys *)

Lemma substring_prefix (n : nat) (s : string) :
  String.prefix (String.substring 0 n s) s = true
  /\ String.length (String.substring 0 n s) = Nat.min n (String.length s).
Proof.
  revert n. induction s as [|c s IH]; intros [|n]; cbn; try done.
  destruct (IH n) as [Hp Hl]. rewrite Hp, Hl.
  split; [|done]. by destruct (Ascii.ascii_dec c c).
Qed.

Section Clock.
Context (startOfMonthISO : string -> string).

(** X15. [getCurrentMonthString] reads the time once, touches nothing, and
    answers the first seven characters of the instant it read, or all of
    it when it is shorter. *)
Theorem month_string_is_a_prefix E w r w' evs :
  exec E getCurrentMonthString w = (r, w', evs) ->
  exists month now,
    r = inr month /\ evs = [EvNewDate now] /\ table w' = table w
    /\ String.prefix month now = true
    /\ String.length month = Nat.min 7 (String.length now).
Proof.
  cbn. intros [= <- <- <-]. do 2 eexists. split_and!; try done.
  all: apply substring_prefix.
Qed.
End Clock.

(** ** The further properties on sample runs *)

(** Scenario E: the mail fails at the second call, and the third and last
    is the error being logged. *)
Lemma reconciliation_is_fail_stop_witness :
  let r := sample_run mail_down 1500 (world_with 500 false) in
  r.1.1 = inr tt
  /\ drop 2 r.2 =
     [EvConsoleError "Error processing deployment" "gpt4dev"
        (Error "Failed to send mail")].
Proof.
  intros r.
  destruct (reconciliation_is_fail_stop "alerts@example.com" "ops@example.com"
              "gpt4dev" 1500 "2024-10" r.2 r.1.1) as (Ha & Hstop & _).
  - apply (exec_run_of mail_down _ (world_with 500 false) r.1.1 r.1.2 r.2).
    vm_compute; reflexivity.
  - split; [exact Ha|].
    eapply (Hstop 1%nat); [vm_compute; reflexivity | reflexivity].
Defined.

(** Scenario A: one read, one mail, two writes. *)
Lemma call_budget_witness :
  let r := sample_run calm 1500 empty_world in
  store_reads r.2 = [("DeploymentType", "gpt4dev-2024-10")]
  /\ (length (mail_results r.2) <= 1)%nat
  /\ (length (store_writes r.2) <= 2)%nat
  /\ (mail_results r.2 <> [] -> THRESHOLD < 1500).
Proof.
  intros r.
  apply (call_budget "alerts@example.com" "ops@example.com"
           "gpt4dev" 1500 "2024-10" r.2 r.1.1).
  apply (exec_run_of calm _ empty_world r.1.1 r.1.2 r.2).
  vm_compute; reflexivity.
Defined.

(** Scenario A: the create is the third call, and the second read the time. *)
Lemma writes_are_stamped_witness :
  let r := sample_run calm 1500 empty_world in
  exists j, 2%nat = S j
    /\ r.2 !! j = Some (EvNewDate "2024-10-28T10:00:00.000Z").
Proof.
  intros r.
  assert (run_of (evaluateTokenUsageForAlert "alerts@example.com" "ops@example.com"
                    "gpt4dev" 1500 "2024-10") r.2 r.1.1) as Hrun.
  { apply (exec_run_of calm _ empty_world r.1.1 r.1.2 r.2).
    vm_compute; reflexivity. }
  apply (writes_are_stamped "alerts@example.com" "ops@example.com"
           "gpt4dev" 1500 "2024-10" r.2 r.1.1 Hrun
           2%nat
           (EvCreateEntity
              (mkEntity "DeploymentType" "gpt4dev-2024-10" 1500 false
                 "2024-10-28T10:00:00.000Z") (inr tt))
           (mkEntity "DeploymentType" "gpt4dev-2024-10" 1500 false
              "2024-10-28T10:00:00.000Z")).
  - vm_compute; reflexivity.
  - reflexivity.
Defined.

(** Scenario B. *)
Lemma no_mail_when_flag_was_read_set_witness :
  let r := sample_run calm 1800 (world_with 1500 true) in
  mail_results r.2 = []
  /\ (forall e', e' ∈ store_writes r.2 -> ActionDone e' = true).
Proof.
  intros r.
  apply (no_mail_when_flag_was_read_set "alerts@example.com" "ops@example.com"
           "gpt4dev" 1800 "2024-10" r.2 r.1.1
           "DeploymentType" "gpt4dev-2024-10"
           (mkEntity "DeploymentType" "gpt4dev-2024-10" 1500 true
              "2024-10-01T00:00:00.000Z")).
  - apply (exec_run_of calm _ (world_with 1500 true) r.1.1 r.1.2 r.2).
    vm_compute; reflexivity.
  - vm_compute; reflexivity.
  - reflexivity.
Defined.

(** A record at 500 without the flag, and a usage of 1500. *)
Lemma settled_record_existing_witness :
  let e := mkEntity "DeploymentType" "gpt4dev-2024-10" 500 false
             "2024-10-01T00:00:00.000Z" in
  let r := sample_run calm 1500 (world_with 500 false) in
  logged_errors r.2 = []
  /\ mail_results r.2 = (if shouldSendAlert (Some e) 1500 then [inr "Succeeded"] else [])
  /\ length (store_writes r.2) =
       ((if shouldSendAlert (Some e) 1500 then 1 else 0)
        + (if 1500 >? SumToken e then 1 else 0))%nat
  /\ exists e', lookup_entity (table r.1.2) "DeploymentType" "gpt4dev-2024-10"
                 = Some e'
       /\ SumToken e' = Z.max (SumToken e) 1500
       /\ ActionDone e' = ActionDone e || (1500 >? THRESHOLD)
       /\ (store_writes r.2 = [] -> LastUpdated e' = LastUpdated e).
Proof.
  intros e r.
  apply (settled_record_existing "alerts@example.com" "ops@example.com"
           calm (world_with 500 false) "gpt4dev" 1500 "2024-10" e
           r.1.1 r.1.2 r.2).
  - intros t; reflexivity.
  - intros t; reflexivity.
  - vm_compute; reflexivity.
  - vm_compute; reflexivity.
Defined.

(** A first observation below the threshold. *)
Lemma settled_record_absent_witness :
  let r := sample_run calm 300 empty_world in
  logged_errors r.2 = []
  /\ mail_results r.2 = (if 300 >? THRESHOLD then [inr "Succeeded"] else [])
  /\ length (store_writes r.2) = (if 300 >? THRESHOLD then 2 else 1)%nat
  /\ exists e', lookup_entity (table r.1.2) "DeploymentType" "gpt4dev-2024-10"
                 = Some e'
       /\ SumToken e' = 300
       /\ ActionDone e' = (300 >? THRESHOLD).
Proof.
  intros r.
  apply (settled_record_absent "alerts@example.com" "ops@example.com"
           calm empty_world "gpt4dev" 300 "2024-10" r.1.1 r.1.2 r.2).
  - intros t; reflexivity.
  - intros t; reflexivity.
  - vm_compute; reflexivity.
  - vm_compute; reflexivity.
Defined.

(** A record at 500 without the flag and a usage of 1500, twice; the
    second time the mail client is down. *)
Lemma completed_run_is_idempotent_witness :
  let r1 := sample_run calm 1500 (world_with 500 false) in
  let r2 := sample_run mail_down 1500 r1.1.2 in
  mail_results r2.2 = [] /\ store_writes r2.2 = [] /\ table r2.1.2 = table r1.1.2.
Proof.
  intros r1 r2.
  apply (completed_run_is_idempotent "alerts@example.com" "ops@example.com"
           calm mail_down (world_with 500 false) "gpt4dev" 1500 "2024-10"
           r1.1.1 r1.1.2 r1.2 r2.1.1 r2.1.2 r2.2).
  - vm_compute; reflexivity.
  - vm_compute; reflexivity.
  - vm_compute; reflexivity.
Defined.

Lemma run_touches_only_its_record_witness :
  let r := sample_run calm 1500 (world_with 500 false) in
  (forall e, e ∈ store_writes r.2 ->
     entity_key e = ("DeploymentType", "gpt4dev-2024-10"))
  /\ (forall k, k <> ("DeploymentType", "gpt4dev-2024-10") ->
        table r.1.2 !! k = table (world_with 500 false) !! k).
Proof.
  intros r.
  apply (run_touches_only_its_record "alerts@example.com" "ops@example.com"
           calm (world_with 500 false) "gpt4dev" 1500 "2024-10" r.1.1 r.1.2 r.2).
  vm_compute; reflexivity.
Defined.

(** The metrics endpoint refuses the call with 403. *)
Lemma source_failure_is_propagated_witness :
  let error := AxiosError (Some (403, "Forbidden")) "Request failed with status code 403" in
  let r := sample_trigger (answering (inl error)) [] world_with_other in
  r.1.1 = {| status := 403; body := "Forbidden" |}
  /\ table r.1.2 = table world_with_other
  /\ (forall i, events_of (Some i) r.2 = []).
Proof.
  intros error r.
  destruct (source_failure_is_propagated
              "alerts@example.com" "ops@example.com" "/subscriptions/s1"
              (fun _ => "2024-10-01T00:00:00.000Z")
              (answering (inl error)) [] world_with_other r.1.1 r.1.2 r.2 error)
    as (Hresp & _ & _ & Htable & Hnone).
  - vm_compute; reflexivity.
  - right. do 2 eexists. apply list_elem_of_lookup_2 with 2%nat. reflexivity.
  - split_and!; [ | exact Htable | exact Hnone ].
    apply (Hresp 403 "Forbidden"); [reflexivity | lia | discriminate].
Defined.

Lemma no_metric_is_an_error_witness :
  let r := sample_trigger (answering (inr [])) [] world_with_other in
  status r.1.1 = 500
  /\ table r.1.2 = table world_with_other
  /\ (forall i, events_of (Some i) r.2 = []).
Proof.
  intros r.
  eapply (no_metric_is_an_error
            "alerts@example.com" "ops@example.com" "/subscriptions/s1"
            (fun _ => "2024-10-01T00:00:00.000Z")
            (answering (inr [])) [] world_with_other r.1.1 r.1.2 r.2).
  - vm_compute; reflexivity.
  - apply list_elem_of_lookup_2 with 2%nat. reflexivity.
Defined.

Lemma no_deployment_no_effect_witness :
  let r := sample_trigger (answering (inr [mkMetric []])) [0; 1]%nat world_with_other in
  r.1.1 = {| status := 200; body := "Success" |}
  /\ table r.1.2 = table world_with_other
  /\ length r.2 = 4%nat
  /\ (forall i, events_of (Some i) r.2 = []).
Proof.
  intros r.
  eapply (no_deployment_no_effect
            "alerts@example.com" "ops@example.com" "/subscriptions/s1"
            (fun _ => "2024-10-01T00:00:00.000Z")
            (answering (inr [mkMetric []])) [0; 1]%nat world_with_other
            r.1.1 r.1.2 r.2).
  - vm_compute; reflexivity.
  - apply list_elem_of_lookup_2 with 2%nat. reflexivity.
  - reflexivity.
Defined.

Lemma nameless_deployment_fails_the_invocation_witness :
  status (sample_trigger (answering (inr [nameless_metric])) [0; 1]%nat
            world_with_other).1.1 = 500.
Proof.
  set (r := sample_trigger (answering (inr [nameless_metric])) [0; 1]%nat
              world_with_other).
  eapply (nameless_deployment_fails_the_invocation
            "alerts@example.com" "ops@example.com" "/subscriptions/s1"
            (fun _ => "2024-10-01T00:00:00.000Z")
            (answering (inr [nameless_metric])) [0; 1]%nat world_with_other
            r.1.1 r.1.2 r.2 _ _ nameless_metric []
            {| metadatavalues := []; data := [5] |}).
  - vm_compute; reflexivity.
  - apply list_elem_of_lookup_2 with 2%nat. reflexivity.
  - apply list_elem_of_lookup_2 with 0%nat. reflexivity.
  - reflexivity.
Defined.

(** The month turns while the metrics endpoint answers: the usage asked
    for October is recorded under November. *)
Lemma record_month_is_read_after_the_answer_witness :
  let r := sample_trigger turn_of_month [0; 1]%nat empty_world in
  let url := "https://management.azure.com//subscriptions/s1/providers/Microsoft.Insights/metrics?api-version=2023-10-01&metricnames=TokenTransaction&$filter=ModelDeploymentName eq '*'&interval=P1D&timespan=2024-10-01T00:00:00.000Z/2024-10-31T23:59:59.900Z" in
  (None, EvAxiosGet url "Bearer token" (inr [sample_metric])) ∈ r.2
  /\ exists answer,
       head (events_of (Some 0%nat) r.2) =
       Some (EvGetEntity "DeploymentType" "gpt4dev-2024-11" answer).
Proof.
  intros r url.
  assert ((None, EvAxiosGet url "Bearer token" (inr [sample_metric])) ∈ r.2) as Hin.
  { apply list_elem_of_lookup_2 with 2%nat. vm_compute; reflexivity. }
  split; [exact Hin|].
  assert (sample_trigger turn_of_month [0; 1]%nat empty_world = (r.1.1, r.1.2, r.2))
    as Hrun by (vm_compute; reflexivity).
  exact (proj2 (record_month_is_read_after_the_answer
                  "alerts@example.com" "ops@example.com" "/subscriptions/s1"
                  (fun _ => "2024-10-01T00:00:00.000Z")
                  turn_of_month [0; 1]%nat empty_world r.1.1 r.1.2 r.2
                  url "Bearer token" sample_metric [] 0%nat
                  {| metadatavalues := ["gpt4dev"]; data := [700; 800] |} "gpt4dev"
                  Hrun Hin eq_refl eq_refl)).
Defined.

Lemma invocation_touches_only_listed_records_witness :
  let r := sample_trigger calm [1; 0; 0; 1]%nat world_with_other in
  table r.1.2 !! ("DeploymentType", "legacy-2024-10")
  = table world_with_other !! ("DeploymentType", "legacy-2024-10").
Proof.
  intros r.
  eapply (invocation_touches_only_listed_records
            "alerts@example.com" "ops@example.com" "/subscriptions/s1"
            (fun _ => "2024-10-01T00:00:00.000Z")
            calm [1; 0; 0; 1]%nat world_with_other r.1.1 r.1.2 r.2 _ _
            sample_metric []).
  - vm_compute; reflexivity.
  - apply list_elem_of_lookup_2 with 2%nat. reflexivity.
  - vm_compute. intros Hin. elems Hin; discriminate.
Defined.

Lemma month_string_is_a_prefix_witness :
  exists month now,
    (exec calm getCurrentMonthString empty_world).1.1 = inr month
    /\ (exec calm getCurrentMonthString empty_world).2 = [EvNewDate now]
    /\ table (exec calm getCurrentMonthString empty_world).1.2 = table empty_world
    /\ String.prefix month now = true
    /\ String.length month = Nat.min 7 (String.length now).
Proof.
  apply (month_string_is_a_prefix calm empty_world).
  vm_compute; reflexivity.
Defined.
